(** * Monte Carlo LEO decay wrapper: comparator, trial generation, strided
      work partition, report parsing and reduction.

    Shallow embedding of [montecarlo_wrapper.cpp].

    Conventions of the embedding:
    - a C++ [int] is a [Z] in the 32-bit two's-complement range; additions
      on it are written with their wrap-around ([int_add]);
    - a C++ [double] is an exact rational ([Q]): the comparator, the affine
      maps of the generator and the subtraction of the adapter are modelled
      with exact arithmetic, rounding is not modelled;
    - the C library's pseudo-random generator and the host (working
      directory, external engine) are interfaces ([Libc], [Engine]) the
      program is parameterised by;
    - console output is a list of structured events. *)

From Stdlib Require Import ZArith QArith Qabs Lqa Lia List Bool.
From Stdlib Require Import String Ascii DecimalString Permutation.
Import ListNotations.

Local Open Scope Z_scope.

(** ** Machine integers *)

Definition INT_MAX : Z := 2147483647.
Definition INT_MIN : Z := -2147483648.

(** Two's-complement wrap-around of a 32-bit signed result. *)
Definition wrap_int (z : Z) : Z := (z + 2 ^ 31) mod 2 ^ 32 - 2 ^ 31.

(** [a + b] on [int]. C++ leaves a signed overflow undefined; the model
    gives it the two's-complement result of the usual targets. *)
Definition int_add (a b : Z) : Z := wrap_int (a + b).

(** Conversion of an [int] to [unsigned int] (the argument of [srand]). *)
Definition to_unsigned (z : Z) : Z := z mod 2 ^ 32.

(** [std::to_string] on an [int]. *)
Definition to_string (z : Z) : string := NilZero.string_of_int (Z.to_int z).

(** ** Doubles *)

Definition double := Q.

(** [x > y] on doubles. *)
Definition dgt (x y : double) : bool := negb (Qle_bool x y).

Arguments dgt (x y)%_Q.

(** ** Data model *)

Record Trial := mkTrial {
  h0_km : double;   (* initial altitude *)
  Cd    : double;   (* drag coefficient *)
  A2M   : double    (* area-to-mass *)
}.

Record Result := mkResult {
  id            : Z;
  lifetime_days : double;
  end_alt_km    : double;
  trial         : Trial;
  ok            : bool
}.

(** [Result r{}]: every member value-initialised. *)
Definition Trial_zero : Trial := mkTrial 0%Q 0%Q 0%Q.
Definition Result_zero : Result := mkResult 0 0%Q 0%Q Trial_zero false.

(** ** The C library's generator and the host *)

Class Libc := {
  rng_state : Type;                       (* the hidden state of rand() *)
  RAND_MAX  : Z;
  srand     : Z -> rng_state;             (* reseed: the state depends on the seed only *)
  rand      : rng_state -> Z * rng_state
}.

(** A file system: the content of each path, when the file exists. *)
Definition FS := string -> option string.

Class Engine := {
  cwd : string;   (* filesystem::current_path() *)
  (* [generateDecayScript] followed by [system(cmd)]: the trial's script is
     written and the engine is run on it as a child process; all the program
     sees of the two is the file system they leave behind. *)
  run_engine : Z -> Trial -> double -> double -> FS -> FS
}.

Definition GLOBAL_SEED : Z := 1234.

(** ** Monte Carlo generators *)

Section Generators.
Context {libc : Libc}.

Definition urand (g : rng_state) : double * rng_state :=
  let (r, g') := rand g in
  ((inject_Z r / inject_Z RAND_MAX)%Q, g').

Definition generateRandomLEO (g : rng_state) : Trial * rng_state :=
  let (u1, g1) := urand g in
  let (u2, g2) := urand g1 in
  let (u3, g3) := urand g2 in
  (mkTrial (500 + 500 * u1)%Q (2 + 0.6 * u2)%Q (0.005 + 0.045 * u3)%Q, g3).

End Generators.

(** ** Parsers *)

Definition newline : ascii := "010"%char.

(** [isspace] in the C locale: space, \t, \n, \v, \f, \r. *)
Definition isspace (c : ascii) : bool :=
  let n := nat_of_ascii c in
  (n =? 32)%nat || ((9 <=? n)%nat && (n <=? 13)%nat).

Definition isdigit (c : ascii) : bool :=
  let n := nat_of_ascii c in (48 <=? n)%nat && (n <=? 57)%nat.

Definition digit_val (c : ascii) : Z := Z.of_nat (nat_of_ascii c - 48).

(** [std::getline] on the unread rest of a stream: fails when nothing is
    left; otherwise yields the characters before the first newline (or all
    of them when there is none) and consumes the newline. *)
Fixpoint split_line (s : string) : string * string :=
  match s with
  | EmptyString => (EmptyString, EmptyString)
  | String c s' =>
      if Ascii.eqb c newline then (EmptyString, s')
      else let (l, r) := split_line s' in (String c l, r)
  end.

Definition getline (s : string) : option (string * string) :=
  match s with
  | EmptyString => None
  | _ => Some (split_line s)
  end.

Fixpoint skipws (s : string) : string :=
  match s with
  | String c s' => if isspace c then skipws s' else s
  | EmptyString => s
  end.

Fixpoint read_digits (s : string) : list Z * string :=
  match s with
  | String c s' =>
      if isdigit c then let (ds, r) := read_digits s' in (digit_val c :: ds, r)
      else ([], s)
  | EmptyString => ([], s)
  end.

Definition digits_value (ds : list Z) : Z :=
  fold_left (fun acc d => 10 * acc + d) ds 0.

(** An optional sign; [true] is minus. *)
Definition read_sign (s : string) : bool * string :=
  match s with
  | String c s' =>
      if Ascii.eqb c "-"%char then (true, s')
      else if Ascii.eqb c "+"%char then (false, s')
      else (false, s)
  | EmptyString => (false, s)
  end.

Definition signed (neg : bool) (z : Z) : Z := if neg then - z else z.

(** The exponent part of a number: absent (exponent 0), or [e]/[E] with an
    optional sign and at least one digit; an [e] with no digit after it
    makes the extraction fail. *)
Definition read_exponent (s : string) : option (Z * string) :=
  match s with
  | String c s' =>
      if Ascii.eqb c "e"%char || Ascii.eqb c "E"%char then
        let (neg, s1) := read_sign s' in
        let (ds, s2) := read_digits s1 in
        match ds with
        | [] => None
        | _ => Some (signed neg (digits_value ds), s2)
        end
      else Some (0, s)
  | EmptyString => Some (0, s)
  end.

(** [stream >> x] for a [double x], on decimal text: leading white space is
    skipped, then an optional sign, digits with an optional decimal point
    (at least one digit in all) and an optional exponent are read. Yields
    the value and the unread rest, or fails. *)
Definition extract_double (s : string) : option (double * string) :=
  let (neg, s1) := read_sign (skipws s) in
  let (ip, s2) := read_digits s1 in
  let (fp, s3) :=
    match s2 with
    | String c s' => if Ascii.eqb c "."%char then read_digits s' else ([], s2)
    | EmptyString => ([], s2)
    end in
  match ip ++ fp with
  | [] => None
  | ds =>
      match read_exponent s3 with
      | None => None
      | Some (e, s4) =>
          Some (Qred (inject_Z (signed neg (digits_value ds))
                      * Qpower 10 (e - Z.of_nat (List.length fp))), s4)
      end
  end.

(** [iss >> x >> y] on the stream of one line: once an extraction has
    failed the stream stays failed. *)
Definition extract_pair (line : string) : option (double * double) :=
  match extract_double line with
  | None => None
  | Some (x, rest) =>
      match extract_double rest with
      | None => None
      | Some (y, _) => Some (x, y)
      end
  end.

(** The values of the four reference parameters when the function returns
    true, [None] when it returns false (its caller reads them in the first
    case only). *)
Definition parseTwoLineReport (fs : FS) (path : string)
  : option (double * double * double * double) :=
  match fs path with
  | None => None                                   (* if (!in) return false *)
  | Some content =>
      match getline content with
      | None => None
      | Some (line1, rest1) =>
          match extract_pair line1 with
          | None => None
          | Some (startA1, startAlt) =>
              match getline rest1 with
              | None => None
              | Some (line2, _) =>
                  match extract_pair line2 with
                  | None => None
                  | Some (endA1, endAlt) =>
                      Some (startA1, startAlt, endA1, endAlt)
                  end
              end
          end
      end
  end.

(** ** Main logic *)

(** What the program writes to the console. *)
Inductive Event :=
| EvWarn (path : string)          (* [WARN] Could not parse <path>, on cerr *)
| EvRun (rankTag : Z) (r : Result)     (* printResult *)
| EvBest (r : Result)             (* [RESULT] Best run was ... *)
| EvNoRuns.                       (* [RESULT] No successful runs parsed. *)

Section MainLogic.
Context {libc : Libc} {engine : Engine}.

(** The state the program runs in. [w_runs] is the history of the calls of
    [runSingleTrajectory] (trial index and trial), oldest first; it is kept
    for the statements about which trials a worker processes. *)
Record World := mkWorld {
  w_fs   : FS;
  w_rng  : rng_state;
  w_out  : list Event;     (* cout *)
  w_err  : list Event;     (* cerr *)
  w_runs : list (Z * Trial)
}.

Definition absPath (name : string) : string := (cwd ++ "/" ++ name)%string.

Definition csvAbs (id : Z) : string :=
  absPath ("traj_" ++ to_string id ++ ".csv")%string.

Definition runSingleTrajectory (id : Z) (t : Trial) (massKg maxDaysCap : double)
    (w : World) : Result * World :=
  let fs' := run_engine id t massKg maxDaysCap (w_fs w) in
  let runs' := w_runs w ++ [(id, t)] in
  let result := mkResult id 0%Q 0%Q t false in
  match parseTwoLineReport fs' (csvAbs id) with
  | None =>
      (result,
       mkWorld fs' (w_rng w) (w_out w) (w_err w ++ [EvWarn (csvAbs id)]) runs')
  | Some (startA1, _, endA1, endAlt) =>
      (mkResult id (endA1 - startA1)%Q endAlt t true,
       mkWorld fs' (w_rng w) (w_out w) (w_err w) runs')
  end.

Definition printResult (r : Result) (rankTag : Z) (w : World) : World :=
  mkWorld (w_fs w) (w_rng w) (w_out w ++ [EvRun rankTag r]) (w_err w) (w_runs w).

Definition set_rng (w : World) (g : rng_state) : World :=
  mkWorld (w_fs w) g (w_out w) (w_err w) (w_runs w).

Definition default_eps : double := 1 # 1000000000.

Definition isBetter_eps (a b : Result) (eps : double) : bool :=
  if negb (ok a) then false            (* a can't beat anything if it's invalid *)
  else if negb (ok b) then true        (* any valid a beats an invalid b *)
  else if dgt (lifetime_days a) (lifetime_days b + eps) then true
  else if dgt (lifetime_days b) (lifetime_days a + eps) then false
  else dgt (h0_km (trial a)) (h0_km (trial b)).

Definition isBetter (a b : Result) : bool := isBetter_eps a b default_eps.

(** The seed of trial [i]: [GLOBAL_SEED + i] in [int], passed to [srand]. *)
Definition seed_of (i : Z) : Z := to_unsigned (int_add GLOBAL_SEED i).

(** One iteration of the worker's loop, for trial index [i]. *)
Definition loop_body (rank : Z) (massKg maxDaysCap : double) (i : Z)
    (localBest : Result) (w : World) : Result * World :=
  let (t, g) := generateRandomLEO (srand (seed_of i)) in
  let (r, w1) := runSingleTrajectory i t massKg maxDaysCap (set_rng w g) in
  if ok r then
    let w2 := printResult r rank w1 in
    (if isBetter r localBest then r else localBest, w2)
  else (localBest, w1).

(** How far a loop got with the iterations it was given. *)
Inductive Outcome :=
| Finished (localBest : Result) (w : World)
| Running (i : Z) (localBest : Result) (w : World).

(** [for (int i = ...; i < numSimulations; i += size)], from the current
    [i], for at most [fuel] iterations. *)
Fixpoint worker_loop (fuel : nat) (numSimulations rank size : Z)
    (massKg maxDaysCap : double) (i : Z) (localBest : Result) (w : World)
  : Outcome :=
  if i <? numSimulations then
    match fuel with
    | O => Running i localBest w
    | S fuel' =>
        let (lb, w') := loop_body rank massKg maxDaysCap i localBest w in
        worker_loop fuel' numSimulations rank size massKg maxDaysCap
                    (int_add i size) lb w'
    end
  else Finished localBest w.

(** The loop of [runMonteCarloDecay], from [i = rank] and the invalid
    [localBest]. *)
Definition worker (fuel : nat) (numSimulations rank size : Z)
    (massKg maxDaysCap : double) (w : World) : Outcome :=
  worker_loop fuel numSimulations rank size massKg maxDaysCap rank Result_zero w.

(** One pass of the receive loop: [if (isBetter(rcv, globalBest)) globalBest = rcv]. *)
Definition accept (globalBest rcv : Result) : Result :=
  if isBetter rcv globalBest then rcv else globalBest.

(** The fold of the records received, in their order of arrival. *)
Definition reduce (globalBest : Result) (inbox : list Result) : Result :=
  fold_left accept inbox globalBest.

Definition report (globalBest : Result) : Event :=
  if ok globalBest then EvBest globalBest else EvNoRuns.

(** What a process has done when [runMonteCarloDecay] returns. *)
Inductive Done :=
| Reported (w : World)                (* rank 0 *)
| Sent (msg : Result) (w : World).    (* the other ranks: MPI_Send to rank 0 *)

(** [runMonteCarloDecay]. [inbox] holds the records [MPI_Recv] delivers to
    rank 0, in their order of arrival; the receive loop takes [size - 1] of
    them. [None]: the worker loop is still running after [fuel] iterations. *)
Definition runMonteCarloDecay (fuel : nat) (numSimulations rank size : Z)
    (massKg maxDaysCap : double) (inbox : list Result) (w : World)
  : option Done :=
  match worker fuel numSimulations rank size massKg maxDaysCap w with
  | Running _ _ _ => None
  | Finished localBest w1 =>
      if rank =? 0 then
        let globalBest := reduce localBest (firstn (Z.to_nat (size - 1)) inbox) in
        Some (Reported (mkWorld (w_fs w1) (w_rng w1)
                                (w_out w1 ++ [report globalBest])
                                (w_err w1) (w_runs w1)))
      else Some (Sent localBest w1)
  end.

(** The trial indices a loop has run, oldest first. *)
Definition processed (o : Outcome) : list Z :=
  match o with
  | Finished _ w => map fst (w_runs w)
  | Running _ _ w => map fst (w_runs w)
  end.

Definition world_of (o : Outcome) : World :=
  match o with
  | Finished _ w => w
  | Running _ _ w => w
  end.

End MainLogic.

(** ** Notions the statements use *)

(** One lifetime ahead of another by more than the epsilon, and two
    lifetimes within the epsilon of each other. *)
Definition exceeds_by_eps (x y : double) : Prop := (y + default_eps < x)%Q.

Definition within_eps (x y : double) : Prop := (Qabs (x - y) <= default_eps)%Q.





(** The indices [rank, rank + size, rank + 2 size, ...] below [n]. *)
Definition stride_count (n rank size : Z) : nat :=
  Z.to_nat ((n - rank + size - 1) / size).

Definition stride_indices (n rank size : Z) : list Z :=
  map (fun k => rank + Z.of_nat k * size) (seq 0 (stride_count n rank size)).

Fixpoint increasing (l : list Z) : Prop :=
  match l with
  | x :: (y :: _) as l' => x < y /\ increasing l'
  | _ => True
  end.

(** The lines of a text: the pieces between newlines; a final newline does
    not start a further line. *)
Fixpoint lines (s : string) : list string :=
  match s with
  | EmptyString => []
  | String c s' =>
      if Ascii.eqb c newline then EmptyString :: lines s'
      else match lines s' with
           | [] => [String c EmptyString]
           | l :: ls => String c l :: ls
           end
  end.

(** A line that begins with two numeric tokens, of values [x] and [y]. *)
Definition numeric_pair (line : string) (x y : double) : Prop :=
  exists r1 r2,
    extract_double line = Some (x, r1) /\ extract_double r1 = Some (y, r2).

(** A report that cannot be used: the file is missing, or it has fewer than
    two lines, or one of its first two lines does not begin with two
    numeric tokens. *)
Definition report_unusable (file : option string) : Prop :=
  match file with
  | None => True
  | Some content =>
      (List.length (lines content) < 2)%nat \/
      exists k l, (k < 2)%nat /\ nth_error (lines content) k = Some l /\
                  forall x y, ~ numeric_pair l x y
  end.

Section TrialOfIndex.
Context {libc : Libc}.

(** The trial of index [i]: a function of the index and the library's
    generator alone. *)
Definition trial_of_index (i : Z) : Trial :=
  fst (generateRandomLEO (srand (seed_of i))).

End TrialOfIndex.

(** ** Concrete data for the examples *)

(** Three valid results: lifetimes 1, 1 + 2^-30 and 1 + 2^-29 days (exact
    binary fractions), initial altitudes 900, 800 and 700 km. *)
Definition cyc_a : Result :=
  mkResult 0 1%Q 122%Q (mkTrial 900%Q 2.2%Q 0.01%Q) true.
Definition cyc_b : Result :=
  mkResult 1 (1 + (1 # 1073741824))%Q 122%Q (mkTrial 800%Q 2.2%Q 0.01%Q) true.
Definition cyc_c : Result :=
  mkResult 2 (1 + (1 # 536870912))%Q 122%Q (mkTrial 700%Q 2.2%Q 0.01%Q) true.

(** Three valid results a day apart. *)
Definition far_a : Result :=
  mkResult 0 3%Q 122%Q (mkTrial 600%Q 2.2%Q 0.01%Q) true.
Definition far_b : Result :=
  mkResult 1 2%Q 122%Q (mkTrial 700%Q 2.2%Q 0.01%Q) true.
Definition far_c : Result :=
  mkResult 2 1%Q 122%Q (mkTrial 800%Q 2.2%Q 0.01%Q) true.

(** The generator the C standard gives as its sample implementation of
    [rand]: RAND_MAX is 32767. *)
#[local] Instance sample_libc : Libc := {|
  rng_state := Z;
  RAND_MAX := 32767;
  srand := fun seed => seed;
  rand := fun next =>
    let next' := (next * 1103515245 + 12345) mod 2 ^ 32 in
    ((next' / 65536) mod 32768, next')
|}.

Definition nl : string := String newline EmptyString.

Definition report_text : string :=
  ("0.0 850.0" ++ nl ++ "5.3 121.9" ++ nl)%string.


(** A host whose engine leaves [report_text] as the report of every even
    trial index and no report for the odd ones. *)
#[local] Instance sample_engine : Engine := {|
  cwd := "/work";
  run_engine := fun id _ _ _ fs path =>
    if String.eqb path ("/work/traj_" ++ to_string id ++ ".csv")%string
    then (if Z.even id then Some report_text else None)
    else fs path
|}.

(** An engine that leaves the given text as the report of every trial. *)
Definition const_engine (text : option string) : Engine := {|
  cwd := "/work";
  run_engine := fun id _ _ _ fs path =>
    if String.eqb path ("/work/traj_" ++ to_string id ++ ".csv")%string
    then text else fs path
|}.

Definition empty_fs : FS := fun _ => None.

Definition world0 : World :=
  mkWorld empty_fs (0 : @rng_state sample_libc) [] [] [].

From Stdlib Require DecimalZ DecimalPos DecimalN.

(** ** Further functions of the program *)

(** *** [trim] *)

Fixpoint char_in (c : ascii) (chars : string) : bool :=
  match chars with
  | EmptyString => false
  | String d chars' => Ascii.eqb c d || char_in c chars'
  end.

(** [s.find_first_not_of(chars)] and [s.find_last_not_of(chars)]; [None] is
    [string::npos]. *)
Fixpoint find_first_not_of (s chars : string) : option nat :=
  match s with
  | EmptyString => None
  | String c s' =>
      if char_in c chars then option_map S (find_first_not_of s' chars)
      else Some O
  end.

Fixpoint find_last_not_of (s chars : string) : option nat :=
  match s with
  | EmptyString => None
  | String c s' =>
      match find_last_not_of s' chars with
      | Some k => Some (S k)
      | None => if char_in c chars then None else Some O
      end
  end.

(** The characters [" \t\r\n"]. *)
Definition blanks : string :=
  String " " (String "009" (String "013" (String "010" EmptyString))).

(** [s.substr(pos, count)], for [pos] within the string. *)
Definition substr (s : string) (pos count : nat) : string := substring pos count s.

(** [trim]. When [b] is [npos] the count [b - a + 1] wraps around to a value
    beyond the end of the string and [substr] takes the rest. *)
Definition trim (s : string) : string :=
  let a := find_first_not_of s blanks in
  let b := find_last_not_of s blanks in
  match a with
  | None => EmptyString
  | Some a =>
      match b with
      | Some b => substr s a (b - a + 1)
      | None => substr s a (String.length s - a)
      end
  end.

Definition is_blank (c : ascii) : bool := char_in c blanks.

Definition first_char (s : string) : option ascii :=
  match s with
  | EmptyString => None
  | String c _ => Some c
  end.

Fixpoint last_char (s : string) : option ascii :=
  match s with
  | EmptyString => None
  | String c s' =>
      match last_char s' with
      | Some d => Some d
      | None => Some c
      end
  end.

(** A text that neither begins nor ends with a blank. *)
Definition trimmed (s : string) : Prop :=
  (forall c, first_char s = Some c -> is_blank c = false) /\
  (forall d, last_char s = Some d -> is_blank d = false).

(** *** File names and the engine's command line *)

Definition GMAT_EXECUTABLE : string := "../GmatConsole".

Definition dquote : string := String (ascii_of_nat 34) EmptyString.

Definition csvName (id : Z) : string := ("traj_" ++ to_string id ++ ".csv")%string.

Definition scriptName (id : Z) : string :=
  ("trajectory_" ++ to_string id ++ ".script")%string.

Definition logName (id : Z) : string := ("traj_" ++ to_string id ++ ".log")%string.

Section CommandLine.
Context {engine : Engine}.

(** The command [runSingleTrajectory] hands to [system]. *)
Definition command (id : Z) : string :=
  (GMAT_EXECUTABLE ++ " -r " ++ dquote ++ absPath (scriptName id) ++ dquote
   ++ " > " ++ dquote ++ logName id ++ dquote ++ " 2>&1")%string.

End CommandLine.

(** *** The arguments of [main] *)

(** [atoi]: leading white space, an optional sign, then digits; 0 when there
    is no digit. A value outside [int] is undefined in C; the model wraps
    it. *)
Definition atoi (s : string) : Z :=
  let (neg, s1) := read_sign (skipws s) in
  let (ds, _) := read_digits s1 in
  wrap_int (signed neg (digits_value ds)).

(** [a.substr(pos)], for [pos] within the string. *)
Definition substr_from (a : string) (pos : nat) : string :=
  substring pos (String.length a - pos) a.

(** The three settings [main] reads from its arguments. *)
Record Settings := mkSettings {
  numSim     : Z;
  massKg     : double;
  maxDaysCap : double
}.

Definition default_settings : Settings := mkSettings 50 200%Q 90%Q.

Section Arguments.
(** [atof] of the C library. *)
Variable atof : string -> double.

(** One pass of the argument loop; [a.rfind(p, 0) == 0] holds when [a]
    begins with [p]. *)
Definition parse_arg (cfg : Settings) (a : string) : Settings :=
  if prefix "--n=" a then
    mkSettings (atoi (substr_from a 4)) (massKg cfg) (maxDaysCap cfg)
  else if prefix "--mass=" a then
    mkSettings (numSim cfg) (atof (substr_from a 7)) (maxDaysCap cfg)
  else if prefix "--capDays=" a then
    mkSettings (numSim cfg) (massKg cfg) (atof (substr_from a 10))
  else cfg.

(** The argument loop of [main], from [argv[1]] on. *)
Definition parse_args (argv : list string) : Settings :=
  fold_left parse_arg (tl argv) default_settings.

End Arguments.

(** *** Notions for the statements on these functions *)

(** The results a worker has printed, oldest first. *)
Definition run_results (evs : list Event) : list Result :=
  flat_map (fun e => match e with EvRun _ r => [r] | _ => [] end) evs.

Section OutcomeBest.
Context {libc : Libc}.

(** The local best an outcome holds. *)
Definition best_of (o : Outcome) : Result :=
  match o with
  | Finished lb _ => lb
  | Running _ lb _ => lb
  end.

End OutcomeBest.

(** The indices [0 .. n-1]. *)
Definition Zseq (n : Z) : list Z := map Z.of_nat (seq 0 (Z.to_nat n)).


(** The outcome of every trial, as a function of its index: one report per
    trial whatever the state of the files the engine finds. *)
Definition outcome_by_index {libc : Libc} {engine : Engine}
    (n : Z) (m c : double) (res : Z -> Result) : Prop :=
  forall i (w : World), 0 <= i < n ->
    fst (runSingleTrajectory i (trial_of_index i) m c w) = res i.

(** The report of the sample host for trial [i]. *)
Definition sample_result (i : Z) : Result :=
  if Z.even i
  then mkResult i 5.3%Q 121.9%Q (trial_of_index (libc := sample_libc) i) true
  else mkResult i 0%Q 0%Q (trial_of_index (libc := sample_libc) i) false.

Fixpoint all_chars (p : ascii -> bool) (s : string) : bool :=
  match s with
  | EmptyString => true
  | String c s' => p c && all_chars p s'
  end.

Definition not_newline (c : ascii) : bool := negb (Ascii.eqb c newline).

Definition not_dot (c : ascii) : bool := negb (Ascii.eqb c ".").

(** Every line followed by a newline. *)
Fixpoint unlines (ls : list string) : string :=
  match ls with
  | [] => EmptyString
  | l :: ls' => (l ++ String newline (unlines ls'))%string
  end.

(** The decimal digits of a number, most significant first. *)
Fixpoint udigits (d : Decimal.uint) : list Z :=
  match d with
  | Decimal.Nil => []
  | Decimal.D0 d => 0 :: udigits d
  | Decimal.D1 d => 1 :: udigits d
  | Decimal.D2 d => 2 :: udigits d
  | Decimal.D3 d => 3 :: udigits d
  | Decimal.D4 d => 4 :: udigits d
  | Decimal.D5 d => 5 :: udigits d
  | Decimal.D6 d => 6 :: udigits d
  | Decimal.D7 d => 7 :: udigits d
  | Decimal.D8 d => 8 :: udigits d
  | Decimal.D9 d => 9 :: udigits d
  end.

(** A text a number can end at: empty, or beginning with a character that
    is no digit, decimal point or exponent mark. *)
Definition ends_number (rest : string) : bool :=
  match rest with
  | EmptyString => true
  | String c _ =>
      negb (isdigit c || Ascii.eqb c "." || Ascii.eqb c "e" || Ascii.eqb c "E")
  end.


(** * Properties *)

(** ** Facts on doubles *)

Lemma dgt_true (x y : double) : dgt x y = true <-> (y < x)%Q.
Proof.
  unfold dgt. rewrite negb_true_iff, <- not_true_iff_false, Qle_bool_iff.
  split; intro H.
  - apply Qnot_le_lt; exact H.
  - apply Qlt_not_le; exact H.
Qed.

Lemma dgt_false (x y : double) : dgt x y = false <-> (x <= y)%Q.
Proof.
  unfold dgt. rewrite negb_false_iff. apply Qle_bool_iff.
Qed.

Lemma within_eps_iff (x y : double) :
  within_eps x y <-> ((x <= y + default_eps) /\ (y <= x + default_eps))%Q.
Proof.
  unfold within_eps. rewrite Qabs_Qle_condition.
  split; intros [H1 H2]; split; lra.
Qed.


Lemma default_eps_pos : (0 < default_eps)%Q.
Proof. reflexivity. Qed.

(** ** The comparator, case by case *)

Lemma isBetter_invalid_l (a b : Result) : ok a = false -> isBetter a b = false.
Proof. intro Ha. unfold isBetter, isBetter_eps. rewrite Ha. reflexivity. Qed.

Lemma isBetter_invalid_r (a b : Result) :
  ok a = true -> ok b = false -> isBetter a b = true.
Proof.
  intros Ha Hb. unfold isBetter, isBetter_eps. rewrite Ha, Hb. reflexivity.
Qed.

Lemma isBetter_valid (a b : Result) :
  ok a = true -> ok b = true ->
  (isBetter a b = true <->
   exceeds_by_eps (lifetime_days a) (lifetime_days b) \/
   (within_eps (lifetime_days a) (lifetime_days b) /\
    (h0_km (trial b) < h0_km (trial a))%Q)).
Proof.
  intros Ha Hb. unfold isBetter, isBetter_eps, exceeds_by_eps.
  rewrite Ha, Hb. cbn [negb].
  rewrite within_eps_iff.
  pose proof default_eps_pos as Heps.
  destruct (dgt (lifetime_days a) (lifetime_days b + default_eps)) eqn:E1.
  - apply dgt_true in E1. split; auto.
  - apply dgt_false in E1.
    destruct (dgt (lifetime_days b) (lifetime_days a + default_eps)) eqn:E2.
    + apply dgt_true in E2. split; [discriminate|].
      intros [H | [[_ H] _]]; lra.
    + apply dgt_false in E2. rewrite dgt_true. split.
      * intro H. right. auto.
      * intros [H | [_ H]]; [lra | exact H].
Qed.

Lemma isBetter_ok_l (a b : Result) : isBetter a b = true -> ok a = true.
Proof.
  intro H. destruct (ok a) eqn:Ha; [reflexivity|].
  rewrite (isBetter_invalid_l a b Ha) in H. discriminate.
Qed.

Lemma isBetter_asym (a b : Result) : isBetter a b = true -> isBetter b a = false.
Proof.
  intro Hab. pose proof (isBetter_ok_l _ _ Hab) as Ha.
  destruct (ok b) eqn:Hb; [| apply isBetter_invalid_l; exact Hb].
  apply not_true_is_false. intro Hba.
  apply (isBetter_valid a b Ha Hb) in Hab.
  apply (isBetter_valid b a Hb Ha) in Hba.
  unfold exceeds_by_eps in *. rewrite !within_eps_iff in *.
  pose proof default_eps_pos.
  destruct Hab as [?|[[? ?] ?]]; destruct Hba as [?|[[? ?] ?]]; lra.
Qed.

Lemma isBetter_irrefl (a : Result) : isBetter a a = false.
Proof.
  destruct (isBetter a a) eqn:E; [| reflexivity].
  rewrite (isBetter_asym a a E) in E. discriminate.
Qed.

(** ** Transitivity of the comparator *)





(** ** The reduction *)

Lemma accept_invalid (g rcv : Result) : ok rcv = false -> accept g rcv = g.
Proof.
  intro H. unfold accept. rewrite (isBetter_invalid_l rcv g H). reflexivity.
Qed.

Lemma reduce_cons (g rcv : Result) (l : list Result) :
  reduce g (rcv :: l) = reduce (accept g rcv) l.
Proof. reflexivity. Qed.

Lemma reduce_all_invalid (l : list Result) (g : Result) :
  Forall (fun m => ok m = false) l -> reduce g l = g.
Proof.
  induction 1 as [| m l Hm _ IH]; [reflexivity|].
  rewrite reduce_cons, (accept_invalid g m Hm). exact IH.
Qed.

Lemma reduce_in (l : list Result) (g : Result) : In (reduce g l) (g :: l).
Proof.
  revert g. induction l as [| r l IH]; intro g; [left; reflexivity|].
  rewrite reduce_cons. destruct (IH (accept g r)) as [H | H].
  - unfold accept in *.
    destruct (isBetter r g); [right; left | left]; exact H.
  - right. right. exact H.
Qed.




(** ** Concrete instances *)





(** ** The claims on the comparator *)






(** ** The claims on the reduction *)


(** Two valid records that differ in their index only are a second reason:
    whichever arrives first stays. *)
Example reduce_full_tie :
  let x := mkResult 7 5%Q 122%Q (mkTrial 600%Q 2.2%Q 0.01%Q) true in
  let y := mkResult 8 5%Q 122%Q (mkTrial 600%Q 2.2%Q 0.01%Q) true in
  reduce Result_zero [x; y] = x /\ reduce Result_zero [y; x] = y.
Proof. split; reflexivity. Qed.



(** ** The worker loop *)

Section WorkerLoop.
Context {libc : Libc} {engine : Engine}.

Lemma runSingleTrajectory_runs id t m c (w : World) :
  w_runs (snd (runSingleTrajectory id t m c w)) = w_runs w ++ [(id, t)].
Proof.
  unfold runSingleTrajectory.
  destruct (parseTwoLineReport _ _) as [[[[? ?] ?] ?] |]; reflexivity.
Qed.

Lemma runSingleTrajectory_out id t m c (w : World) :
  w_out (snd (runSingleTrajectory id t m c w)) = w_out w.
Proof.
  unfold runSingleTrajectory.
  destruct (parseTwoLineReport _ _) as [[[[? ?] ?] ?] |]; reflexivity.
Qed.

Lemma runSingleTrajectory_fails id t m c (w : World) :
  parseTwoLineReport (run_engine id t m c (w_fs w)) (csvAbs id) = None ->
  fst (runSingleTrajectory id t m c w) = mkResult id 0%Q 0%Q t false /\
  w_err (snd (runSingleTrajectory id t m c w)) = w_err w ++ [EvWarn (csvAbs id)].
Proof.
  intro H. unfold runSingleTrajectory. rewrite H. split; reflexivity.
Qed.

Lemma runSingleTrajectory_parses id t m c (w : World) s1 a1 s2 a2 :
  parseTwoLineReport (run_engine id t m c (w_fs w)) (csvAbs id)
    = Some (s1, a1, s2, a2) ->
  fst (runSingleTrajectory id t m c w) = mkResult id (s2 - s1)%Q a2 t true /\
  w_err (snd (runSingleTrajectory id t m c w)) = w_err w.
Proof.
  intro H. unfold runSingleTrajectory. rewrite H. split; reflexivity.
Qed.

(** The iteration for index [i], spelled out on the trial of [i]. *)
Lemma loop_body_eq rank m c i lb (w : World) :
  let g := snd (generateRandomLEO (srand (seed_of i))) in
  let rw := runSingleTrajectory i (trial_of_index i) m c (set_rng w g) in
  loop_body rank m c i lb w =
  if ok (fst rw)
  then (if isBetter (fst rw) lb then fst rw else lb,
        printResult (fst rw) rank (snd rw))
  else (lb, snd rw).
Proof.
  unfold loop_body, trial_of_index.
  destruct (generateRandomLEO (srand (seed_of i))) as [t g]. cbn [fst snd].
  destruct (runSingleTrajectory i t m c (set_rng w g)) as [r w1].
  reflexivity.
Qed.

Lemma loop_body_runs rank m c i lb (w : World) :
  w_runs (snd (loop_body rank m c i lb w)) = w_runs w ++ [(i, trial_of_index i)].
Proof.
  rewrite loop_body_eq. cbv zeta.
  destruct (ok _); cbn [snd printResult w_runs];
    rewrite runSingleTrajectory_runs; reflexivity.
Qed.

Lemma worker_loop_step fuel n rank size m c i lb (w : World) :
  i < n ->
  worker_loop (S fuel) n rank size m c i lb w =
  worker_loop fuel n rank size m c (int_add i size)
              (fst (loop_body rank m c i lb w)) (snd (loop_body rank m c i lb w)).
Proof.
  intro Hi. cbn [worker_loop].
  destruct (Z.ltb_spec i n); [| lia].
  destruct (loop_body rank m c i lb w). reflexivity.
Qed.

Lemma worker_loop_exit fuel n rank size m c i lb (w : World) :
  n <= i -> worker_loop fuel n rank size m c i lb w = Finished lb w.
Proof.
  intro Hi. destruct fuel; cbn [worker_loop];
    destruct (Z.ltb_spec i n); solve [lia | reflexivity].
Qed.

Lemma worker_loop_out_of_fuel n rank size m c i lb (w : World) :
  i < n -> worker_loop O n rank size m c i lb w = Running i lb w.
Proof.
  intro Hi. cbn [worker_loop]. destruct (Z.ltb_spec i n); [reflexivity | lia].
Qed.

(** Every trial a loop runs is the trial of its index. *)
Lemma worker_loop_trials n rank size m c fuel :
  forall i lb (w : World),
    (forall p, In p (w_runs w) -> snd p = trial_of_index (fst p)) ->
    forall p,
      In p (w_runs (world_of (worker_loop fuel n rank size m c i lb w))) ->
      snd p = trial_of_index (fst p).
Proof.
  induction fuel as [| fuel IH]; intros i lb w Hw p Hp.
  - destruct (Z.lt_ge_cases i n) as [Hi | Hi].
    + rewrite worker_loop_out_of_fuel in Hp by exact Hi. auto.
    + rewrite worker_loop_exit in Hp by exact Hi. auto.
  - destruct (Z.lt_ge_cases i n) as [Hi | Hi].
    + rewrite worker_loop_step in Hp by exact Hi.
      revert p Hp. apply IH. intros p Hp.
      rewrite loop_body_runs in Hp. apply in_app_or in Hp.
      destruct Hp as [Hp | [<- | []]]; [auto | reflexivity].
    + rewrite worker_loop_exit in Hp by exact Hi. auto.
Qed.

End WorkerLoop.

(** C4: the trial a worker generates for index [i] is the trial of [i],
    obtained by reseeding the generator with [GLOBAL_SEED + i]: two runs
    that both process [i] give it the same trial, whatever their ranks,
    numbers of workers, trial counts, engines and initial states. *)
Theorem trial_deterministic_by_index {libc : Libc} (e1 e2 : Engine)
    (fuel1 fuel2 : nat) (n1 n2 rank1 rank2 size1 size2 : Z)
    (m1 m2 c1 c2 : double) (w1 w2 : World) (i : Z) (t1 t2 : Trial) :
  w_runs w1 = [] -> w_runs w2 = [] ->
  In (i, t1) (w_runs (world_of (@worker libc e1 fuel1 n1 rank1 size1 m1 c1 w1))) ->
  In (i, t2) (w_runs (world_of (@worker libc e2 fuel2 n2 rank2 size2 m2 c2 w2))) ->
  t1 = t2 /\ t1 = trial_of_index i.
Proof.
  intros H1 H2 I1 I2.
  assert (E1 : t1 = trial_of_index i).
  { apply (worker_loop_trials (engine := e1) n1 rank1 size1 m1 c1 fuel1
             rank1 Result_zero w1) in I1; [exact I1 |].
    rewrite H1. intros p []. }
  assert (E2 : t2 = trial_of_index i).
  { apply (worker_loop_trials (engine := e2) n2 rank2 size2 m2 c2 fuel2
             rank2 Result_zero w2) in I2; [exact I2 |].
    rewrite H2. intros p []. }
  split; congruence.
Qed.

Lemma trial_deterministic_witness :
  let t := trial_of_index (libc := sample_libc) 3 in
  In (3, t) (w_runs (world_of (worker 10 6 1 2 200%Q 90%Q world0))) /\
  In (3, t) (w_runs (world_of
     (@worker sample_libc (const_engine None) 10 6 0 3 100%Q 30%Q world0))) /\
  t = t.
Proof.
  intro t.
  assert (I1 : In (3, t) (w_runs (world_of (worker 10 6 1 2 200%Q 90%Q world0))))
    by (vm_compute; right; left; reflexivity).
  assert (I2 : In (3, t) (w_runs (world_of
     (@worker sample_libc (const_engine None) 10 6 0 3 100%Q 30%Q world0))))
    by (vm_compute; right; left; reflexivity).
  split; [exact I1 | split; [exact I2 |]].
  exact (proj1 (trial_deterministic_by_index sample_engine (const_engine None)
                  10 10 6 6 1 0 2 3 200%Q 100%Q 90%Q 30%Q world0 world0 3 t t
                  eq_refl eq_refl I1 I2)).
Defined.

(** ** Strided partition *)

Lemma wrap_int_id (z : Z) : INT_MIN <= z <= INT_MAX -> wrap_int z = z.
Proof.
  unfold INT_MIN, INT_MAX, wrap_int. intro H.
  rewrite Z.mod_small; lia.
Qed.

Lemma stride_count_step (n i size : Z) :
  0 < size -> i < n ->
  stride_count n i size = S (stride_count n (i + size) size).
Proof.
  intros Hs Hi. unfold stride_count.
  replace (n - i + size - 1) with (n - (i + size) + size - 1 + 1 * size) by lia.
  rewrite Z.div_add by lia.
  assert (0 <= (n - (i + size) + size - 1) / size)
    by (apply Z.div_pos; lia).
  lia.
Qed.

Lemma stride_count_zero (n i size : Z) :
  0 < size -> n <= i -> stride_count n i size = O.
Proof.
  intros Hs Hi. unfold stride_count.
  assert ((n - i + size - 1) / size < 1)
    by (apply Z.div_lt_upper_bound; lia).
  lia.
Qed.

Lemma stride_indices_step (n i size : Z) :
  0 < size -> i < n ->
  stride_indices n i size = i :: stride_indices n (i + size) size.
Proof.
  intros Hs Hi. unfold stride_indices.
  rewrite (stride_count_step n i size Hs Hi).
  cbn [seq map]. f_equal; [lia |].
  rewrite <- seq_shift, map_map. apply map_ext. intro k. lia.
Qed.

Lemma stride_indices_nil (n i size : Z) :
  0 < size -> n <= i -> stride_indices n i size = [].
Proof.
  intros Hs Hi. unfold stride_indices.
  rewrite (stride_count_zero n i size Hs Hi). reflexivity.
Qed.

Lemma in_stride_indices (n rank size i : Z) :
  0 < size -> 0 <= rank < size ->
  (In i (stride_indices n rank size) <-> 0 <= i < n /\ i mod size = rank).
Proof.
  intros Hs Hr. unfold stride_indices, stride_count.
  rewrite in_map_iff. split.
  - intros [k [<- Hk]]. apply in_seq in Hk.
    assert (Hq : size * ((n - rank + size - 1) / size) <= n - rank + size - 1)
      by (apply Z.mul_div_le; lia).
    split.
    + nia.
    + rewrite Z.mod_add by lia. apply Z.mod_small. lia.
  - intros [Hi Hm]. exists (Z.to_nat (i / size)).
    pose proof (Z.div_mod i size ltac:(lia)) as Hdm.
    assert (0 <= i / size) by (apply Z.div_pos; lia).
    split; [lia |].
    apply in_seq.
    assert (i / size + 1 <= (n - rank + size - 1) / size)
      by (apply Z.div_le_lower_bound; lia).
    lia.
Qed.

Lemma stride_indices_increasing (n size : Z) :
  0 < size ->
  forall (k : nat) (i : Z),
    stride_count n i size = k -> increasing (stride_indices n i size).
Proof.
  intros Hs. induction k as [| k IH]; intros i Hk.
  - unfold stride_indices. rewrite Hk. exact I.
  - destruct (Z.lt_ge_cases i n) as [Hi | Hi].
    + rewrite (stride_indices_step n i size Hs Hi).
      rewrite (stride_count_step n i size Hs Hi) in Hk. injection Hk as Hk.
      specialize (IH (i + size) Hk).
      destruct (Z.lt_ge_cases (i + size) n) as [Hi' | Hi'].
      * rewrite (stride_indices_step n (i + size) size Hs Hi') in *.
        split; [lia | exact IH].
      * rewrite (stride_indices_nil n (i + size) size Hs Hi'). exact I.
    + rewrite (stride_count_zero n i size Hs Hi) in Hk. discriminate.
Qed.

Section WorkerIndices.
Context {libc : Libc} {engine : Engine}.

(** Away from the upper end of [int] the loop runs the strided indices and
    returns. *)
Lemma worker_loop_finishes n rank size m c :
  0 < size -> n + size <= INT_MAX + 1 ->
  forall fuel i lb (w : World),
    INT_MIN <= i -> (stride_count n i size <= fuel)%nat ->
    exists lb' w',
      worker_loop fuel n rank size m c i lb w = Finished lb' w' /\
      w_runs w' = w_runs w
                  ++ map (fun j => (j, trial_of_index j)) (stride_indices n i size).
Proof.
  intros Hs Hn. induction fuel as [| fuel IH]; intros i lb w Hi Hf.
  - destruct (Z.lt_ge_cases i n) as [Hlt | Hge].
    + rewrite (stride_count_step n i size Hs Hlt) in Hf. lia.
    + exists lb, w. rewrite worker_loop_exit by exact Hge.
      rewrite (stride_indices_nil n i size Hs Hge), app_nil_r. auto.
  - destruct (Z.lt_ge_cases i n) as [Hlt | Hge].
    + rewrite worker_loop_step by exact Hlt.
      unfold int_add. rewrite wrap_int_id by (unfold INT_MAX, INT_MIN in *; lia).
      rewrite (stride_count_step n i size Hs Hlt) in Hf.
      destruct (IH (i + size) (fst (loop_body rank m c i lb w))
                   (snd (loop_body rank m c i lb w))) as [lb' [w' [E R]]];
        [lia | lia |].
      exists lb', w'. split; [exact E |].
      rewrite R, loop_body_runs, (stride_indices_step n i size Hs Hlt).
      cbn [map]. rewrite <- app_assoc. reflexivity.
    + exists lb, w. rewrite worker_loop_exit by exact Hge.
      rewrite (stride_indices_nil n i size Hs Hge), app_nil_r. auto.
Qed.

End WorkerIndices.

(** ** The loop counter at the upper end of [int] *)

Section Overflow.
Context {libc : Libc} {engine : Engine}.

Lemma worker_loop_runs_incl n rank size m c fuel :
  forall i lb (w : World) p,
    In p (w_runs w) ->
    In p (w_runs (world_of (worker_loop fuel n rank size m c i lb w))).
Proof.
  induction fuel as [| fuel IH]; intros i lb w p Hp;
    destruct (Z.lt_ge_cases i n) as [Hi | Hi];
    try (rewrite worker_loop_exit by exact Hi; exact Hp).
  - rewrite worker_loop_out_of_fuel by exact Hi. exact Hp.
  - rewrite worker_loop_step by exact Hi. apply IH.
    rewrite loop_body_runs. apply in_or_app. left. exact Hp.
Qed.

Lemma processed_runs (o : Outcome) : processed o = map fst (w_runs (world_of o)).
Proof. destruct o; reflexivity. Qed.

(** [k] iterations that neither leave the loop nor wrap the counter. *)
Lemma worker_loop_prefix n rank size m c :
  0 < size ->
  forall (k fuel : nat) i lb (w : World),
    INT_MIN <= i -> i + Z.of_nat k * size <= INT_MAX ->
    i + (Z.of_nat k - 1) * size < n ->
    exists lb' w',
      worker_loop (k + fuel) n rank size m c i lb w
      = worker_loop fuel n rank size m c (i + Z.of_nat k * size) lb' w'.
Proof.
  intros Hs. induction k as [| k IH]; intros fuel i lb w Hlo Hhi Hlast.
  - exists lb, w. cbn [Nat.add]. f_equal. lia.
  - assert (Hi : i < n) by nia.
    cbn [Nat.add]. rewrite worker_loop_step by exact Hi.
    unfold int_add. rewrite wrap_int_id by (unfold INT_MIN in *; nia).
    destruct (IH fuel (i + size) (fst (loop_body rank m c i lb w))
                 (snd (loop_body rank m c i lb w))) as [lb' [w' E]];
      [lia | lia | lia |].
    exists lb', w'. rewrite E. f_equal. lia.
Qed.

(** With [INT_MAX] trials and two workers the loop of rank 0 is never left:
    its counter stays even, hence below [INT_MAX]. *)
Lemma even_counter_never_finishes m c fuel :
  forall i lb (w : World),
    Z.even i = true -> INT_MIN <= i <= INT_MAX ->
    exists i' lb' w',
      worker_loop fuel INT_MAX 0 2 m c i lb w = Running i' lb' w'.
Proof.
  induction fuel as [| fuel IH]; intros i lb w Hev Hr.
  - assert (Hi : i < INT_MAX).
    { destruct (Z.eq_dec i INT_MAX) as [-> | ]; [discriminate | lia]. }
    exists i, lb, w. apply worker_loop_out_of_fuel. exact Hi.
  - assert (Hi : i < INT_MAX).
    { destruct (Z.eq_dec i INT_MAX) as [-> | ]; [discriminate | lia]. }
    rewrite worker_loop_step by exact Hi.
    apply IH.
    + destruct (Z.eq_dec i 2147483646) as [-> | Hne]; [reflexivity |].
      unfold int_add. rewrite wrap_int_id by (unfold INT_MIN, INT_MAX in *; lia).
      rewrite Z.even_add, Hev. reflexivity.
    + destruct (Z.eq_dec i 2147483646) as [-> | Hne].
      * unfold INT_MIN, INT_MAX. cbv. split; discriminate.
      * unfold int_add.
        rewrite wrap_int_id by (unfold INT_MIN, INT_MAX in *; lia).
        unfold INT_MIN, INT_MAX in *. lia.
Qed.

(** C5 (the code at the failing input): with [numSimulations = INT_MAX],
    two workers and rank 0, the loop never returns, and after enough
    iterations it has run the trial of index [INT_MIN]: after index
    2147483646 the counter [i += size] wraps around. *)
Theorem stride_wraps_at_int_max m c (w : World) :
  (forall fuel, exists i lb w', worker fuel INT_MAX 0 2 m c w = Running i lb w') /\
  (exists fuel, In INT_MIN (processed (worker fuel INT_MAX 0 2 m c w))).
Proof.
  split.
  - intro fuel. apply even_counter_never_finishes; [reflexivity |].
    unfold INT_MIN, INT_MAX. lia.
  - assert (Hk : exists k : nat, Z.of_nat k = 1073741823)
      by (exists (Z.to_nat 1073741823); apply Z2Nat.id; discriminate).
    destruct Hk as [k Hk].
    exists (k + 2)%nat. unfold worker.
    destruct (worker_loop_prefix INT_MAX 0 2 m c ltac:(lia)
                k 2%nat 0 Result_zero w)
      as [lb1 [w1 E]];
      [unfold INT_MIN; lia | unfold INT_MAX; lia | unfold INT_MAX; lia |].
    rewrite E. clear E. rewrite Hk.
    change (0 + 1073741823 * 2) with 2147483646.
    rewrite worker_loop_step by (unfold INT_MAX; lia).
    change (int_add 2147483646 2) with INT_MIN.
    rewrite worker_loop_step by (unfold INT_MIN, INT_MAX; lia).
    rewrite processed_runs. apply in_map_iff.
    exists (INT_MIN, trial_of_index INT_MIN). split; [reflexivity |].
    apply worker_loop_runs_incl. rewrite loop_body_runs.
    apply in_or_app. right. left. reflexivity.
Qed.

End Overflow.

(** ** The report parser *)

Example extract_double_forms :
  extract_double "  -2.5E-1x" = Some ((- (1 # 4))%Q, "x"%string) /\
  extract_double ".5" = Some ((1 # 2)%Q, ""%string) /\
  extract_double "12. 7" = Some (12%Q, " 7"%string) /\
  extract_double "1e" = None /\
  extract_double "abc" = None /\
  extract_double "" = None.
Proof. repeat split. Qed.

Example getline_forms :
  getline "" = None /\
  getline "1 2" = Some ("1 2"%string, ""%string) /\
  getline (nl ++ "x") = Some (""%string, "x"%string) /\
  lines report_text = ["0.0 850.0"%string; "5.3 121.9"%string].
Proof. repeat split. Qed.

Lemma lines_split_line (s : string) :
  s <> EmptyString ->
  lines s = fst (split_line s) :: lines (snd (split_line s)).
Proof.
  induction s as [| c s IH]; intro Hne; [congruence |].
  cbn [lines split_line]. destruct (Ascii.eqb c newline); [reflexivity |].
  destruct s as [| c' s'].
  - reflexivity.
  - rewrite IH by discriminate.
    destruct (split_line (String c' s')) as [l r]. reflexivity.
Qed.

Lemma getline_none (s : string) : getline s = None <-> lines s = [].
Proof.
  destruct s as [| c s]; [split; reflexivity |].
  rewrite lines_split_line by discriminate. split; discriminate.
Qed.

Lemma getline_some (s l rest : string) :
  getline s = Some (l, rest) -> lines s = l :: lines rest.
Proof.
  destruct s as [| c s]; [discriminate |].
  intro H.
  assert (E : split_line (String c s) = (l, rest))
    by (unfold getline in H; congruence).
  rewrite lines_split_line by discriminate. rewrite E. reflexivity.
Qed.


Lemma extract_pair_some (line : string) (x y : double) :
  extract_pair line = Some (x, y) <-> numeric_pair line x y.
Proof.
  unfold extract_pair, numeric_pair. split.
  - destruct (extract_double line) as [[x' r1] |] eqn:E1; [| discriminate].
    destruct (extract_double r1) as [[y' r2] |] eqn:E2; [| discriminate].
    intro H. injection H as -> ->. exists r1, r2. auto.
  - intros [r1 [r2 [-> ->]]]. reflexivity.
Qed.

Lemma extract_pair_none (line : string) :
  extract_pair line = None <-> forall x y, ~ numeric_pair line x y.
Proof.
  split.
  - intros H x y Hn. apply extract_pair_some in Hn. congruence.
  - intro H. destruct (extract_pair line) as [[x y] |] eqn:E; [| reflexivity].
    apply extract_pair_some in E. destruct (H x y E).
Qed.


Lemma parseTwoLineReport_none (fs : FS) (path : string) :
  parseTwoLineReport fs path = None <-> report_unusable (fs path).
Proof.
  unfold parseTwoLineReport, report_unusable.
  destruct (fs path) as [content |]; [| tauto].
  destruct (getline content) as [[l1 rest1] |] eqn:G1.
  - rewrite (getline_some _ _ _ G1).
    destruct (extract_pair l1) as [[x1 y1] |] eqn:P1.
    + destruct (getline rest1) as [[l2 rest2] |] eqn:G2.
      * rewrite (getline_some _ _ _ G2).
        destruct (extract_pair l2) as [[x2 y2] |] eqn:P2.
        -- split; [discriminate |].
           intros [H | [k [l [Hk [Hn Hbad]]]]]; [cbn in H; lia |].
           apply extract_pair_some in P1, P2.
           destruct k as [| [| k]]; [| | lia]; cbn in Hn;
             injection Hn as <-; exfalso; eapply Hbad; eassumption.
        -- split; [| reflexivity]. intros _. right. exists 1%nat, l2.
           split; [lia |]. split; [reflexivity |].
           apply extract_pair_none. exact P2.
      * apply getline_none in G2. rewrite G2.
        split; [| reflexivity]. intros _. left. cbn. lia.
    + split; [| reflexivity]. intros _. right. exists 0%nat, l1.
      split; [lia |]. split; [reflexivity |].
      apply extract_pair_none. exact P1.
  - apply getline_none in G1. rewrite G1.
    split; [| reflexivity]. intros _. left. cbn. lia.
Qed.

(** *** What follows the two tokens of a line *)

Section TrailingText.
Variables (sp : ascii) (junk : string).
Hypothesis sp_space : isspace sp = true.








End TrailingText.

(** ** The adapter and the worker on one report *)

Section Adapter.
Context {libc : Libc} {engine : Engine}.

Lemma loop_body_fs_fails rank m c i lb (w : World) :
  parseTwoLineReport (run_engine i (trial_of_index i) m c (w_fs w)) (csvAbs i)
    = None ->
  fst (loop_body rank m c i lb w) = lb /\
  w_out (snd (loop_body rank m c i lb w)) = w_out w /\
  w_err (snd (loop_body rank m c i lb w)) = w_err w ++ [EvWarn (csvAbs i)].
Proof.
  intro H. rewrite loop_body_eq. cbv zeta.
  set (w0 := set_rng w _).
  destruct (runSingleTrajectory_fails i (trial_of_index i) m c w0 H) as [Hr He].
  rewrite Hr. cbn [ok fst snd].
  rewrite runSingleTrajectory_out, He. auto.
Qed.


(** C6: when the report of a trial is missing, has fewer than two lines or
    has a line among its first two that does not begin with two numeric
    tokens, the adapter returns a result that is not ok and logs a warning;
    the worker's iteration for that trial prints nothing and leaves the
    local best as it was. *)
Theorem unusable_report_not_counted (rank : Z) (m c : double) (i : Z)
    (lb : Result) (w : World) :
  (forall t,
     report_unusable (run_engine i t m c (w_fs w) (csvAbs i)) ->
     fst (runSingleTrajectory i t m c w) = mkResult i 0%Q 0%Q t false /\
     w_err (snd (runSingleTrajectory i t m c w)) = w_err w ++ [EvWarn (csvAbs i)] /\
     w_out (snd (runSingleTrajectory i t m c w)) = w_out w) /\
  (report_unusable (run_engine i (trial_of_index i) m c (w_fs w) (csvAbs i)) ->
   fst (loop_body rank m c i lb w) = lb /\
   w_out (snd (loop_body rank m c i lb w)) = w_out w /\
   w_err (snd (loop_body rank m c i lb w)) = w_err w ++ [EvWarn (csvAbs i)]).
Proof.
  split.
  - intros t H. apply parseTwoLineReport_none in H.
    destruct (runSingleTrajectory_fails i t m c w H) as [Hr He].
    rewrite runSingleTrajectory_out. auto.
  - intro H. apply parseTwoLineReport_none in H.
    apply loop_body_fs_fails. exact H.
Qed.

(** C8: the report "0.0 850.0\n5.3 121.9\n" parses, and the adapter returns
    a result with lifetime 5.3, end altitude 121.9 and ok set. *)
Theorem well_formed_report_parses (id : Z) (t : Trial) (m c : double) (w : World) :
  run_engine id t m c (w_fs w) (csvAbs id) = Some report_text ->
  parseTwoLineReport (run_engine id t m c (w_fs w)) (csvAbs id)
    = Some (0%Q, 850%Q, 5.3%Q, 121.9%Q) /\
  fst (runSingleTrajectory id t m c w) = mkResult id 5.3%Q 121.9%Q t true.
Proof.
  intro H.
  assert (P : parseTwoLineReport (run_engine id t m c (w_fs w)) (csvAbs id)
              = Some (0%Q, 850%Q, 5.3%Q, 121.9%Q)).
  { unfold parseTwoLineReport. rewrite H. vm_compute. reflexivity. }
  split; [exact P |].
  destruct (runSingleTrajectory_parses id t m c w _ _ _ _ P) as [Hr _].
  rewrite Hr. reflexivity.
Qed.


End Adapter.

Lemma unusable_report_not_counted_witness :
  report_unusable
    (run_engine 1 (trial_of_index 1) 200%Q 90%Q (w_fs world0) (csvAbs 1)) /\
  fst (runSingleTrajectory 1 (trial_of_index 1) 200%Q 90%Q world0)
    = mkResult 1 0%Q 0%Q (trial_of_index 1) false /\
  fst (loop_body 1 200%Q 90%Q 1 far_a world0) = far_a /\
  w_out (snd (loop_body 1 200%Q 90%Q 1 far_a world0)) = [].
Proof.
  assert (U : report_unusable
    (run_engine 1 (trial_of_index 1) 200%Q 90%Q (w_fs world0) (csvAbs 1)))
    by (vm_compute; exact I).
  destruct (unusable_report_not_counted 1 200%Q 90%Q 1 far_a world0) as [A L].
  split; [exact U |].
  split; [exact (proj1 (A (trial_of_index 1) U)) |].
  split; [exact (proj1 (L U)) | exact (proj1 (proj2 (L U)))].
Defined.

(** The three ways a report can be unusable, on the adapter. *)
Example adapter_report_missing :
  fst (@runSingleTrajectory sample_libc (const_engine None)
         4 Trial_zero 200%Q 90%Q world0)
  = mkResult 4 0%Q 0%Q Trial_zero false.
Proof. vm_compute. reflexivity. Qed.

Example adapter_report_one_line :
  @runSingleTrajectory sample_libc
     (const_engine (Some ("0.0 850.0" ++ nl)%string)) 4 Trial_zero 200%Q 90%Q world0
  = (mkResult 4 0%Q 0%Q Trial_zero false,
     mkWorld (@run_engine (const_engine (Some ("0.0 850.0" ++ nl)%string))
                4 Trial_zero 200%Q 90%Q empty_fs)
             (0 : @rng_state sample_libc) [] [EvWarn "/work/traj_4.csv"]
             [(4, Trial_zero)]).
Proof. reflexivity. Qed.

Example adapter_report_malformed :
  fst (@runSingleTrajectory sample_libc
         (const_engine (Some ("0.0 850.0" ++ nl ++ "abc 121.9" ++ nl)%string))
         4 Trial_zero 200%Q 90%Q world0)
  = mkResult 4 0%Q 0%Q Trial_zero false.
Proof. vm_compute. reflexivity. Qed.

Lemma well_formed_report_parses_witness :
  run_engine 2 Trial_zero 200%Q 90%Q (w_fs world0) (csvAbs 2) = Some report_text /\
  fst (runSingleTrajectory 2 Trial_zero 200%Q 90%Q world0)
    = mkResult 2 5.3%Q 121.9%Q Trial_zero true.
Proof.
  split; [reflexivity |].
  exact (proj2 (well_formed_report_parses 2 Trial_zero 200%Q 90%Q world0 eq_refl)).
Defined.


(** ** The generator *)

Section GeneratorRange.
Context {libc : Libc}.

Lemma urand_at_max (g g' : rng_state) :
  0 < RAND_MAX -> rand g = (RAND_MAX, g') -> (fst (urand g) == 1)%Q.
Proof.
  intros Hpos H. unfold urand. rewrite H. cbn [fst].
  apply Qmult_inv_r. intro E. unfold Qeq in E. cbn in E. lia.
Qed.



(** C9 (the code at the failing input): when [rand] returns RAND_MAX, which
    is in its range, [urand] is 1 and the initial altitude is the upper
    endpoint 1000, not below it. *)
Theorem upper_endpoint_attained (g g' : rng_state) :
  0 < RAND_MAX -> rand g = (RAND_MAX, g') ->
  (h0_km (fst (generateRandomLEO g)) == 1000)%Q /\
  ~ (h0_km (fst (generateRandomLEO g)) < 1000)%Q.
Proof.
  intros Hpos H.
  pose proof (urand_at_max g g' Hpos H) as U.
  unfold generateRandomLEO.
  destruct (urand g) as [u1 g1]. cbn [fst] in U.
  destruct (urand g1) as [u2 g2]. destruct (urand g2) as [u3 g3].
  cbn [fst h0_km]. split; [| apply Qle_not_lt]; rewrite U.
  - reflexivity.
  - discriminate.
Qed.

End GeneratorRange.

(** With the sample generator of the C standard, trial 23650 draws RAND_MAX
    first. *)
Lemma upper_endpoint_attained_witness :
  rand (srand (seed_of 23650)) = (RAND_MAX, 2147445597) /\
  (h0_km (trial_of_index 23650) == 1000)%Q.
Proof.
  split; [vm_compute; reflexivity |].
  refine (proj1 (upper_endpoint_attained (libc := sample_libc)
                   (srand (seed_of 23650)) 2147445597 _ _)).
  - reflexivity.
  - vm_compute. reflexivity.
Defined.

(** ** No successful run *)

Lemma Forall_firstn {A : Type} (P : A -> Prop) (k : nat) (l : list A) :
  Forall P l -> Forall P (firstn k l).
Proof.
  revert l. induction k as [| k IH]; intros l H; [constructor |].
  destruct H as [| x l Hx Hl]; constructor; auto.
Qed.

Section NoRuns.
Context {libc : Libc} {engine : Engine}.

(** When no report can be parsed the loop leaves the local best and the
    output as they were. *)
Lemma worker_loop_all_fail n rank size m c :
  (forall i t fs, parseTwoLineReport (run_engine i t m c fs) (csvAbs i) = None) ->
  forall fuel i lb (w : World) lb' w',
    worker_loop fuel n rank size m c i lb w = Finished lb' w' ->
    lb' = lb /\ w_out w' = w_out w.
Proof.
  intros Hfail. induction fuel as [| fuel IH]; intros i lb w lb' w' E;
    destruct (Z.lt_ge_cases i n) as [Hi | Hi];
    try (rewrite worker_loop_exit in E by exact Hi;
         injection E as <- <-; auto).
  - rewrite worker_loop_out_of_fuel in E by exact Hi. discriminate.
  - rewrite worker_loop_step in E by exact Hi.
    destruct (loop_body_fs_fails rank m c i lb w (Hfail _ _ _)) as [Hb [Ho _]].
    apply IH in E. rewrite Hb, Ho in E. exact E.
Qed.

(** C7: a record that is not ok never replaces the accumulator; folding
    records that are all invalid into an invalid local best leaves it
    invalid, and the coordinator then reports that no run succeeded. On the
    whole procedure: when no report can be parsed, a rank other than 0 sends
    an invalid record and prints nothing, and rank 0, receiving invalid
    records only, prints the no-successful-runs line and nothing else. *)
Theorem no_successful_runs :
  (forall g rcv, ok rcv = false -> accept g rcv = g) /\
  (forall localBest inbox,
     ok localBest = false -> Forall (fun r => ok r = false) inbox ->
     ok (reduce localBest inbox) = false /\
     report (reduce localBest inbox) = EvNoRuns) /\
  (forall fuel n rank size m c inbox (w : World) d,
     (forall i t fs,
        parseTwoLineReport (run_engine i t m c fs) (csvAbs i) = None) ->
     Forall (fun r => ok r = false) inbox ->
     runMonteCarloDecay fuel n rank size m c inbox w = Some d ->
     match d with
     | Reported w' => w_out w' = w_out w ++ [EvNoRuns]
     | Sent msg w' => ok msg = false /\ w_out w' = w_out w
     end).
Proof.
  split; [exact accept_invalid | split].
  - intros lb inbox Hlb Hin. rewrite (reduce_all_invalid inbox lb Hin).
    unfold report. rewrite Hlb. auto.
  - intros fuel n rank size m c inbox w d Hfail Hin.
    unfold runMonteCarloDecay, worker.
    destruct (worker_loop fuel n rank size m c rank Result_zero w)
      as [lb w1 | ? ? ?] eqn:E; [| discriminate].
    destruct (worker_loop_all_fail n rank size m c Hfail _ _ _ _ _ _ E)
      as [-> Ho].
    destruct (rank =? 0); intro H; injection H as <-.
    + cbn [w_out]. rewrite reduce_all_invalid.
      * rewrite Ho. reflexivity.
      * apply Forall_firstn. exact Hin.
    + auto.
Qed.

End NoRuns.

Lemma const_engine_none_fails i t m c (fs : FS) :
  parseTwoLineReport (@run_engine (const_engine None) i t m c fs)
                     (@csvAbs (const_engine None) i) = None.
Proof.
  unfold parseTwoLineReport, csvAbs, absPath. cbn [run_engine cwd const_engine].
  cbn [append]. rewrite String.eqb_refl. reflexivity.
Qed.

Lemma no_successful_runs_witness :
  accept cyc_a Result_zero = cyc_a /\
  report (reduce Result_zero [Result_zero; Result_zero]) = EvNoRuns /\
  exists w',
    @runMonteCarloDecay sample_libc (const_engine None)
       10 5 0 3 200%Q 90%Q [Result_zero; Result_zero] world0
      = Some (Reported w') /\
    w_out w' = [EvNoRuns].
Proof.
  destruct (@no_successful_runs sample_libc (const_engine None)) as [A [B C]].
  assert (Hin : Forall (fun r => ok r = false) [Result_zero; Result_zero])
    by (repeat constructor).
  split; [exact (A cyc_a Result_zero eq_refl) |].
  split; [exact (proj2 (B Result_zero [Result_zero; Result_zero] eq_refl Hin)) |].
  destruct (@worker_loop_finishes sample_libc (const_engine None)
              5 0 3 200%Q 90%Q eq_refl ltac:(unfold INT_MAX; lia)
              10%nat 0 Result_zero world0 ltac:(unfold INT_MIN; lia)
              ltac:(vm_compute; lia))
    as [lb [w1 [E _]]].
  assert (E' : @runMonteCarloDecay sample_libc (const_engine None)
                 10 5 0 3 200%Q 90%Q [Result_zero; Result_zero] world0
               = Some (Reported
                   (mkWorld (w_fs w1) (w_rng w1)
                      (w_out w1 ++
                       [report (reduce lb (firstn (Z.to_nat (3 - 1))
                                             [Result_zero; Result_zero]))])
                      (w_err w1) (w_runs w1)))).
  { unfold runMonteCarloDecay, worker. rewrite E. reflexivity. }
  eexists. split; [exact E' |].
  exact (C 10%nat 5 0 3 200%Q 90%Q [Result_zero; Result_zero] world0 _
           (fun i t fs => const_engine_none_fails i t 200%Q 90%Q fs) Hin E').
Defined.

(** ** The strided partition, away from the upper end of [int] *)

Section Partition.
Context {libc : Libc} {engine : Engine}.

(** X23: for [numSimulations + size] within [int]: a worker returns after having
    run exactly the indices [rank, rank + size, ...] below [numSimulations],
    in increasing order; these are the indices congruent to [rank]; and
    every index below [numSimulations] belongs to one rank and one only. *)
Theorem stride_partition (n size : Z) :
  0 <= n -> 1 <= size -> n + size <= INT_MAX + 1 ->
  (forall rank m c (w : World),
     0 <= rank < size -> w_runs w = [] ->
     exists lb w',
       worker (stride_count n rank size) n rank size m c w = Finished lb w' /\
       processed (Finished lb w') = stride_indices n rank size) /\
  (forall rank i,
     0 <= rank < size ->
     (In i (stride_indices n rank size) <-> 0 <= i < n /\ i mod size = rank)) /\
  (forall rank, increasing (stride_indices n rank size)) /\
  (forall i, 0 <= i < n ->
     exists rank,
       0 <= rank < size /\ In i (stride_indices n rank size) /\
       forall rank', 0 <= rank' < size ->
                     In i (stride_indices n rank' size) -> rank' = rank).
Proof.
  intros Hn Hs Hb. split; [| split; [| split]].
  - intros rank m c w Hr Hw. unfold worker.
    destruct (worker_loop_finishes n rank size m c ltac:(lia) Hb
                (stride_count n rank size) rank Result_zero w)
      as [lb [w' [E R]]]; [unfold INT_MIN; lia | lia |].
    exists lb, w'. split; [exact E |].
    cbn [processed]. rewrite R, Hw. cbn [app].
    rewrite map_map. cbn [fst]. apply map_id.
  - intros rank i Hr. apply in_stride_indices; lia.
  - intro rank. apply (stride_indices_increasing n size ltac:(lia) _ rank eq_refl).
  - intros i Hi. exists (i mod size).
    assert (Hm : 0 <= i mod size < size) by (apply Z.mod_pos_bound; lia).
    split; [exact Hm |]. split.
    + apply in_stride_indices; [lia | exact Hm | auto].
    + intros rank' Hr' Hin.
      apply in_stride_indices in Hin; [| lia | exact Hr']. symmetry. tauto.
Qed.

End Partition.

Lemma stride_partition_witness :
  processed (worker 5 20 2 4 200%Q 90%Q world0) = [2; 6; 10; 14; 18] /\
  stride_indices 20 2 4 = [2; 6; 10; 14; 18].
Proof.
  destruct (@stride_partition sample_libc sample_engine 20 4
              ltac:(lia) ltac:(lia) ltac:(unfold INT_MAX; lia)) as [H _].
  destruct (H 2 200%Q 90%Q world0 ltac:(lia) eq_refl) as [lb [w' [E P]]].
  split; [| reflexivity].
  change 5%nat with (stride_count 20 2 4). rewrite E. exact P.
Defined.

(** * Further properties *)

(** ** The comparator *)

(** X1: [isBetter] is a strict relation: no record beats itself and two
    records never beat each other. *)
Theorem isBetter_strict (a b : Result) :
  isBetter a a = false /\ (isBetter a b = true -> isBetter b a = false).
Proof.
  split; [apply isBetter_irrefl | apply isBetter_asym].
Qed.

Lemma isBetter_strict_witness :
  isBetter cyc_a cyc_a = false /\ isBetter cyc_a cyc_b = true /\
  isBetter cyc_b cyc_a = false.
Proof.
  split; [exact (proj1 (isBetter_strict cyc_a cyc_b)) |].
  split; [reflexivity |].
  exact (proj2 (isBetter_strict cyc_a cyc_b) eq_refl).
Defined.



(** X3: with the tolerance set to zero the comparator is transitive on all
    records: it then orders by lifetime and, at equal lifetime, by initial
    altitude. *)
Theorem isBetter_eps_zero_transitive (a b c : Result) :
  isBetter_eps a b 0%Q = true -> isBetter_eps b c 0%Q = true ->
  isBetter_eps a c 0%Q = true.
Proof.
  unfold isBetter_eps. intros Hab Hbc.
  destruct (ok a); cbn [negb] in *; [| discriminate].
  destruct (ok b); cbn [negb] in *; [| discriminate].
  destruct (ok c); cbn [negb] in *; [| reflexivity].
  repeat match goal with
         | H : context [dgt ?x ?y] |- _ =>
             let E := fresh "E" in
             destruct (dgt x y) eqn:E;
             [apply dgt_true in E | apply dgt_false in E]
         | |- context [dgt ?x ?y] =>
             let E := fresh "E" in
             destruct (dgt x y) eqn:E;
             [apply dgt_true in E | apply dgt_false in E]
         end;
    try reflexivity; try discriminate; lra.
Qed.

Lemma isBetter_eps_zero_transitive_witness :
  isBetter_eps cyc_c cyc_b 0%Q = true /\ isBetter_eps cyc_b cyc_a 0%Q = true /\
  isBetter_eps cyc_c cyc_a 0%Q = true.
Proof.
  split; [reflexivity |]. split; [reflexivity |].
  exact (isBetter_eps_zero_transitive cyc_c cyc_b cyc_a eq_refl eq_refl).
Defined.

(** ** The reduction *)

Lemma accept_ok (g rcv : Result) :
  ok (accept g rcv) = ok g || ok rcv.
Proof.
  unfold accept. destruct (isBetter rcv g) eqn:E.
  - rewrite (isBetter_ok_l _ _ E). apply eq_sym, orb_true_r.
  - destruct (ok g) eqn:Hg; [reflexivity |].
    destruct (ok rcv) eqn:Hr; [| reflexivity].
    rewrite (isBetter_invalid_r rcv g Hr Hg) in E. discriminate.
Qed.

Lemma reduce_ok (l : list Result) (g : Result) :
  ok (reduce g l) = ok g || existsb ok l.
Proof.
  revert g. induction l as [| r l IH]; intro g.
  - cbn. apply eq_sym, orb_false_r.
  - rewrite reduce_cons, IH, accept_ok. cbn [existsb]. apply eq_sym, orb_assoc.
Qed.

(** X4: the Global Best is one of the records folded (the coordinator's
    local best or a received record), and it is valid exactly when one of
    them is: the coordinator reports that no run succeeded only if every
    record is invalid. *)
Theorem reduce_picks_a_valid_record (g : Result) (inbox : list Result) :
  In (reduce g inbox) (g :: inbox) /\
  ok (reduce g inbox) = ok g || existsb ok inbox /\
  (report (reduce g inbox) = EvNoRuns <->
   ok g = false /\ Forall (fun r => ok r = false) inbox).
Proof.
  split; [apply reduce_in |]. split; [apply reduce_ok |].
  unfold report. rewrite reduce_ok. split.
  - destruct (ok g); cbn [orb]; [discriminate |].
    destruct (existsb ok inbox) eqn:E; [discriminate |]. intros _.
    split; [reflexivity |]. apply Forall_forall. intros x Hx.
    destruct (ok x) eqn:Hox; [| reflexivity].
    assert (existsb ok inbox = true) by (apply existsb_exists; eauto).
    congruence.
  - intros [-> Hall]. cbn [orb].
    destruct (existsb ok inbox) eqn:E; [| reflexivity].
    apply existsb_exists in E. destruct E as [x [Hx Hox]].
    rewrite (proj1 (Forall_forall _ _) Hall x Hx) in Hox. discriminate.
Qed.



(** Without that condition a folded record can beat the result: from the
    invalid accumulator the fold of [cyc_a; cyc_b; cyc_c] ends on [cyc_c],
    which [cyc_b] beats. *)
Example reduce_result_beaten :
  reduce Result_zero [cyc_a; cyc_b; cyc_c] = cyc_c /\ isBetter cyc_b cyc_c = true.
Proof. split; reflexivity. Qed.

(** ** What a worker prints and keeps *)

Section WorkerOutput.
Context {libc : Libc} {engine : Engine}.

(** The two ways an iteration can go. *)
Lemma loop_body_cases rank m c i lb (w : World) :
  (exists r,
     ok r = true /\ id r = i /\ trial r = trial_of_index i /\
     fst (loop_body rank m c i lb w) = accept lb r /\
     w_out (snd (loop_body rank m c i lb w)) = w_out w ++ [EvRun rank r] /\
     w_err (snd (loop_body rank m c i lb w)) = w_err w) \/
  (fst (loop_body rank m c i lb w) = lb /\
   w_out (snd (loop_body rank m c i lb w)) = w_out w /\
   w_err (snd (loop_body rank m c i lb w)) = w_err w ++ [EvWarn (csvAbs i)]).
Proof.
  destruct (parseTwoLineReport
              (run_engine i (trial_of_index i) m c (w_fs w)) (csvAbs i))
    as [[[[s1 a1] s2] a2] |] eqn:P.
  - left. exists (mkResult i (s2 - s1)%Q a2 (trial_of_index i) true).
    rewrite loop_body_eq. cbv zeta. set (w0 := set_rng w _).
    destruct (runSingleTrajectory_parses i (trial_of_index i) m c w0 _ _ _ _ P)
      as [Hr He].
    rewrite Hr. cbn [ok fst snd printResult w_out w_err id trial].
    rewrite runSingleTrajectory_out, He. repeat split.
  - right. apply loop_body_fs_fails. exact P.
Qed.

Lemma run_results_app (l1 l2 : list Event) :
  run_results (l1 ++ l2) = run_results l1 ++ run_results l2.
Proof. apply flat_map_app. Qed.

(** What holds of a loop however far it got. *)
Lemma worker_loop_inv n rank size m c fuel :
  forall i lb (w : World),
    let o := worker_loop fuel n rank size m c i lb w in
    exists evs warns,
      w_out (world_of o) = w_out w ++ evs /\
      w_err (world_of o) = w_err w ++ warns /\
      best_of o = reduce lb (run_results evs) /\
      Forall (fun e => exists r,
                e = EvRun rank r /\ ok r = true /\
                trial r = trial_of_index (id r) /\
                In (id r, trial r) (w_runs (world_of o))) evs /\
      Forall (fun e => exists j,
                e = EvWarn (csvAbs j) /\
                In (j, trial_of_index j) (w_runs (world_of o))) warns /\
      List.length (w_runs (world_of o))
      = (List.length (w_runs w) + List.length evs + List.length warns)%nat.
Proof.
  induction fuel as [| fuel IH]; intros i lb w o; subst o.
  - exists [], [].
    destruct (Z.lt_ge_cases i n) as [Hi | Hi];
      [rewrite worker_loop_out_of_fuel by exact Hi
      | rewrite worker_loop_exit by exact Hi];
      cbn [world_of best_of run_results flat_map reduce fold_left List.length];
      rewrite !app_nil_r; repeat split; try constructor; lia.
  - destruct (Z.lt_ge_cases i n) as [Hi | Hi].
    + rewrite worker_loop_step by exact Hi.
      pose proof (loop_body_runs rank m c i lb w) as Hruns.
      assert (Hin : In (i, trial_of_index i)
                       (w_runs (snd (loop_body rank m c i lb w)))).
      { rewrite Hruns. apply in_or_app. right. left. reflexivity. }
      destruct (IH (int_add i size) (fst (loop_body rank m c i lb w))
                  (snd (loop_body rank m c i lb w)))
        as [evs [warns [Ho [He [Hb [Fe [Fw Hl]]]]]]].
      set (o := worker_loop fuel n rank size m c (int_add i size)
                  (fst (loop_body rank m c i lb w))
                  (snd (loop_body rank m c i lb w))) in *.
      assert (Hfin : In (i, trial_of_index i) (w_runs (world_of o)))
        by (apply worker_loop_runs_incl; exact Hin).
      destruct (loop_body_cases rank m c i lb w)
        as [[r [Hok [Hid [Htr [Hlb [Hout Herr]]]]]] | [Hlb [Hout Herr]]].
      * exists (EvRun rank r :: evs), warns.
        rewrite Ho, He, Hb, Hout, Herr, Hlb, Hl, Hruns, <- app_assoc.
        cbn [run_results flat_map app]. fold (run_results evs).
        rewrite reduce_cons, length_app. cbn [List.length].
        repeat split; auto; [| lia].
        constructor; [| exact Fe].
        exists r. rewrite Hid, Htr. auto.
      * exists evs, (EvWarn (csvAbs i) :: warns).
        rewrite Ho, He, Hb, Hout, Herr, Hlb, Hl, Hruns, <- app_assoc.
        rewrite length_app. cbn [List.length app].
        repeat split; auto; [| lia].
        constructor; [| exact Fw]. exists i. auto.
    + exists [], []. rewrite worker_loop_exit by exact Hi.
      cbn [world_of best_of run_results flat_map reduce fold_left List.length].
      rewrite !app_nil_r. repeat split; try constructor; lia.
Qed.

End WorkerOutput.

Lemma in_run_results (evs : list Event) (r : Result) :
  In r (run_results evs) -> exists k, In (EvRun k r) evs.
Proof.
  unfold run_results. intro H. apply in_flat_map in H.
  destruct H as [e [He Hr]]. destruct e; cbn in Hr; try contradiction.
  destruct Hr as [<- | []]. eauto.
Qed.

Section WorkerTheorems.
Context {libc : Libc} {engine : Engine}.

(** X6: the local best of a worker is the fold of the comparator over the
    results the worker has printed, in the order printed: it is the invalid
    initial record when nothing was printed, and otherwise a valid result
    that the worker printed itself. *)
Theorem local_best_is_fold_of_printed (fuel : nat) (n rank size : Z)
    (m c : double) (w : World) :
  let o := worker fuel n rank size m c w in
  exists evs,
    w_out (world_of o) = w_out w ++ evs /\
    best_of o = reduce Result_zero (run_results evs) /\
    (evs = [] -> best_of o = Result_zero) /\
    (evs <> [] -> ok (best_of o) = true /\ In (EvRun rank (best_of o)) evs).
Proof.
  intro o. subst o. unfold worker.
  destruct (worker_loop_inv n rank size m c fuel rank Result_zero w)
    as [evs [warns [Ho [_ [Hb [Fe _]]]]]].
  exists evs. split; [exact Ho |]. split; [exact Hb |]. split.
  - intros ->. rewrite Hb. reflexivity.
  - intro Hne. rewrite Hb.
    assert (Hok : ok (reduce Result_zero (run_results evs)) = true).
    { rewrite reduce_ok. cbn [ok Result_zero orb].
      destruct evs as [| e evs]; [congruence |].
      inversion Fe as [| ? ? [r [-> [Hr _]]] _]; subst.
      cbn [run_results flat_map app existsb]. rewrite Hr. reflexivity. }
    split; [exact Hok |].
    destruct (reduce_in (run_results evs) Result_zero) as [E | Hin].
    + rewrite <- E in Hok. discriminate Hok.
    + apply in_run_results in Hin. destruct Hin as [k Hk].
      destruct (proj1 (Forall_forall _ _) Fe _ Hk) as [r [E _]].
      injection E as -> _. exact Hk.
Qed.

(** X7: every trial a worker runs leaves exactly one line: a result line on
    the standard output or a warning on the error output. *)
Theorem one_line_per_trial (fuel : nat) (n rank size : Z) (m c : double)
    (w : World) :
  let w' := world_of (worker fuel n rank size m c w) in
  (List.length (w_out w') + List.length (w_err w') + List.length (w_runs w)
   = List.length (w_out w) + List.length (w_err w) + List.length (w_runs w'))%nat.
Proof.
  intro w'. subst w'. unfold worker.
  destruct (worker_loop_inv n rank size m c fuel rank Result_zero w)
    as [evs [warns [Ho [He [_ [_ [_ Hl]]]]]]].
  rewrite Ho, He, Hl, !length_app. lia.
Qed.

(** X8: what a worker prints is about trials it has run: each line on the
    standard output is a valid result tagged with the worker's rank, whose
    index the worker has processed and whose trial is the trial of that
    index; each warning names the report of a processed index. *)
Theorem printed_lines_are_own_trials (fuel : nat) (n rank size : Z)
    (m c : double) (w : World) :
  let o := worker fuel n rank size m c w in
  exists evs warns,
    w_out (world_of o) = w_out w ++ evs /\
    w_err (world_of o) = w_err w ++ warns /\
    Forall (fun e => exists r,
              e = EvRun rank r /\ ok r = true /\
              trial r = trial_of_index (id r) /\
              In (id r, trial r) (w_runs (world_of o))) evs /\
    Forall (fun e => exists j,
              e = EvWarn (csvAbs j) /\
              In (j, trial_of_index j) (w_runs (world_of o))) warns.
Proof.
  intro o. subst o. unfold worker.
  destruct (worker_loop_inv n rank size m c fuel rank Result_zero w)
    as [evs [warns [Ho [He [_ [Fe [Fw _]]]]]]].
  exists evs, warns. auto.
Qed.

End WorkerTheorems.

Lemma local_best_is_fold_of_printed_witness :
  exists evs,
    w_out (world_of (worker 10 6 0 2 200%Q 90%Q world0)) = evs /\
    evs <> [] /\
    ok (best_of (worker 10 6 0 2 200%Q 90%Q world0)) = true /\
    In (EvRun 0 (best_of (worker 10 6 0 2 200%Q 90%Q world0))) evs.
Proof.
  destruct (local_best_is_fold_of_printed 10 6 0 2 200%Q 90%Q world0)
    as [evs [Ho [_ [_ H]]]].
  exists evs. split; [exact Ho |].
  assert (Hne : evs <> []).
  { intros ->. vm_compute in Ho. discriminate Ho. }
  split; [exact Hne |]. exact (H Hne).
Defined.

(** ** Seeds *)

Lemma wrap_int_mod (z : Z) : wrap_int z mod 2 ^ 32 = z mod 2 ^ 32.
Proof.
  unfold wrap_int.
  rewrite Zminus_mod, Zmod_mod, <- Zminus_mod. f_equal. lia.
Qed.

Lemma seed_of_eq (i : Z) : seed_of i = (GLOBAL_SEED + i) mod 2 ^ 32.
Proof. unfold seed_of, to_unsigned, int_add. apply wrap_int_mod. Qed.

(** X9: different trial indices are given different seeds, over the whole
    range of [int], and below [INT_MAX - GLOBAL_SEED] the seed of index [i]
    is [GLOBAL_SEED + i] itself. *)
Theorem seed_of_injective (i j : Z) :
  INT_MIN <= i <= INT_MAX -> INT_MIN <= j <= INT_MAX ->
  (seed_of i = seed_of j -> i = j) /\
  (0 <= i <= INT_MAX - GLOBAL_SEED -> seed_of i = GLOBAL_SEED + i).
Proof.
  unfold INT_MIN, INT_MAX, GLOBAL_SEED. intros Hi Hj.
  rewrite !seed_of_eq. unfold GLOBAL_SEED. split.
  - intro H.
    pose proof (Z.div_mod (1234 + i) (2 ^ 32) ltac:(lia)) as Di.
    pose proof (Z.div_mod (1234 + j) (2 ^ 32) ltac:(lia)) as Dj.
    pose proof (Z.mod_pos_bound (1234 + i) (2 ^ 32) ltac:(lia)) as Bi.
    pose proof (Z.mod_pos_bound (1234 + j) (2 ^ 32) ltac:(lia)) as Bj.
    rewrite H in Di. lia.
  - intro H. apply Z.mod_small. lia.
Qed.

Lemma seed_of_injective_witness :
  seed_of 7 = 1241 /\ (seed_of 7 = seed_of 7 -> 7 = 7).
Proof.
  destruct (seed_of_injective 7 7) as [H1 H2];
    [unfold INT_MIN, INT_MAX; lia | unfold INT_MIN, INT_MAX; lia |].
  split; [| exact H1].
  apply H2. unfold INT_MAX, GLOBAL_SEED. lia.
Defined.

(** ** The ranges of a trial *)

Section TrialRanges.
Context {libc : Libc}.



End TrialRanges.



(** ** The files of a trial *)

Lemma append_inv_head (s x y : string) : (s ++ x = s ++ y)%string -> x = y.
Proof.
  induction s as [| c s IH]; cbn [append]; intro H; [exact H |].
  injection H as H. exact (IH H).
Qed.

Lemma append_assoc_r (a b c : string) :
  ((a ++ b) ++ c = a ++ (b ++ c))%string.
Proof.
  induction a as [| x a IH]; cbn [append]; [reflexivity |].
  rewrite IH. reflexivity.
Qed.


(** Two texts that agree up to their first point agree before it and
    after it. *)
Lemma first_dot_splits (x y s1 s2 : string) :
  all_chars not_dot x = true -> all_chars not_dot y = true ->
  (x ++ String "." s1 = y ++ String "." s2)%string -> x = y /\ s1 = s2.
Proof.
  revert y. induction x as [| c x IH]; intros [| d y] Hx Hy H;
    cbn [append all_chars] in *.
  - injection H as H. auto.
  - injection H as Hc _. subst d. discriminate Hy.
  - injection H as Hc _. subst c. discriminate Hx.
  - injection H as Hc H. subst d.
    apply andb_true_iff in Hx, Hy.
    destruct (IH y (proj2 Hx) (proj2 Hy) H) as [-> ->]. auto.
Qed.

Lemma string_of_uint_not_dot (d : Decimal.uint) :
  all_chars not_dot (NilEmpty.string_of_uint d) = true.
Proof. induction d; cbn; auto. Qed.

Lemma to_string_not_dot (z : Z) : all_chars not_dot (to_string z) = true.
Proof.
  unfold to_string, NilZero.string_of_int, NilZero.string_of_uint.
  destruct (Z.to_int z) as [d | d]; destruct d; cbn [all_chars];
    try reflexivity; apply (string_of_uint_not_dot _).
Qed.

Lemma to_string_inj (i j : Z) : to_string i = to_string j -> i = j.
Proof.
  unfold to_string. intro H.
  assert (Hn : forall z, Z.to_int z <> Decimal.Pos Decimal.Nil /\
                         Z.to_int z <> Decimal.Neg Decimal.Nil).
  { intros [| p | p]; cbn; split; try discriminate;
      intro E; injection E as E;
      exact (DecimalPos.Unsigned.to_uint_nonnil p E). }
  apply DecimalZ.to_int_inj.
  assert (E : Some (Z.to_int i) = Some (Z.to_int j)).
  { rewrite <- (NilZero.isi (Z.to_int i)) by apply Hn.
    rewrite <- (NilZero.isi (Z.to_int j)) by apply Hn.
    rewrite H. reflexivity. }
  injection E as E. exact E.
Qed.

Section TrialFiles.
Context {engine : Engine}.

(** X11: the files of the trials never collide: the report, the script and
    the log of two different trial indices have different names, so has the
    command that runs the engine, and the three files of one trial are
    different files. *)
Theorem trial_files_distinct (i j : Z) :
  (csvAbs i = csvAbs j -> i = j) /\
  (absPath (scriptName i) = absPath (scriptName j) -> i = j) /\
  (logName i = logName j -> i = j) /\
  (command i = command j -> i = j) /\
  csvName i <> logName j /\ csvName i <> scriptName j /\
  logName i <> scriptName j.
Proof.
  pose proof (to_string_not_dot i) as Di.
  pose proof (to_string_not_dot j) as Dj.
  unfold csvAbs, absPath, command, csvName, scriptName, logName.
  repeat split.
  - intro H. do 2 apply append_inv_head in H. cbn [append] in H.
    injection H as H. apply first_dot_splits in H; [| assumption ..].
    apply to_string_inj. tauto.
  - intro H. do 2 apply append_inv_head in H. cbn [append] in H.
    injection H as H. apply first_dot_splits in H; [| assumption ..].
    apply to_string_inj. tauto.
  - cbn [append]. intro H. injection H as H.
    apply first_dot_splits in H; [| assumption ..].
    apply to_string_inj. tauto.
  - intro H. do 3 apply append_inv_head in H.
    unfold absPath in H. rewrite !append_assoc_r in H.
    do 2 apply append_inv_head in H. cbn [append] in H.
    injection H as H. apply first_dot_splits in H; [| assumption ..].
    apply to_string_inj. tauto.
  - cbn [append]. intro H. injection H as H.
    apply first_dot_splits in H; [| assumption ..].
    destruct H as [_ H]. discriminate H.
  - cbn [append]. intro H. discriminate H.
  - cbn [append]. intro H. discriminate H.
Qed.

End TrialFiles.

Lemma trial_files_distinct_witness :
  csvAbs 3 = "/work/traj_3.csv"%string /\ csvAbs 3 <> csvAbs 4.
Proof.
  split; [reflexivity |].
  intro H.
  pose proof (proj1 (trial_files_distinct (engine := sample_engine) 3 4) H).
  discriminate.
Defined.

(** ** Reading back what was written *)

Lemma split_line_app (l rest : string) :
  all_chars not_newline l = true ->
  split_line (l ++ String newline rest) = (l, rest).
Proof.
  induction l as [| c l IH]; cbn [append split_line all_chars]; intro H.
  - rewrite Ascii.eqb_refl. reflexivity.
  - apply andb_true_iff in H. destruct H as [Hc Hl].
    unfold not_newline in Hc. apply negb_true_iff in Hc. rewrite Hc.
    rewrite (IH Hl). reflexivity.
Qed.

Lemma getline_app (l rest : string) :
  all_chars not_newline l = true ->
  getline (l ++ String newline rest) = Some (l, rest).
Proof.
  intro H. unfold getline.
  rewrite <- (split_line_app l rest H).
  destruct l; reflexivity.
Qed.

Lemma lines_unlines (ls : list string) :
  Forall (fun x => all_chars not_newline x = true) ls ->
  lines (unlines ls) = ls.
Proof.
  induction 1 as [| l ls Hl _ IH]; [reflexivity |].
  cbn [unlines].
  rewrite (getline_some _ _ _ (getline_app l _ Hl)), IH. reflexivity.
Qed.

(** [getline] takes a text apart line by line: on lines that hold no
    newline, reading the text made of each line followed by a newline gives
    the first line and leaves the text of the others, and the lines of that
    text are the lines it was made of. *)
Theorem getline_unlines (l : string) (ls : list string) :
  Forall (fun x => all_chars not_newline x = true) (l :: ls) ->
  getline (unlines (l :: ls)) = Some (l, unlines ls) /\
  lines (unlines (l :: ls)) = l :: ls.
Proof.
  intro H. split.
  - cbn [unlines]. apply getline_app. inversion H; assumption.
  - apply lines_unlines. exact H.
Qed.

Lemma getline_unlines_witness :
  getline (unlines ["0.0 850.0"; "5.3 121.9"]%string)
  = Some ("0.0 850.0"%string, unlines ["5.3 121.9"%string]).
Proof.
  apply (getline_unlines "0.0 850.0" ["5.3 121.9"%string]).
  repeat constructor.
Defined.

(** *** Whole numbers *)

Lemma read_digits_uint (d : Decimal.uint) (rest : string) :
  read_digits (NilEmpty.string_of_uint d ++ rest)
  = (udigits d ++ fst (read_digits rest), snd (read_digits rest)).
Proof.
  induction d; cbn [NilEmpty.string_of_uint append udigits app];
    try (cbn [read_digits]; change (isdigit _) with true; cbv iota;
         rewrite IHd; reflexivity).
  destruct (read_digits rest). reflexivity.
Qed.

Lemma fold_digits_uint (d : Decimal.uint) (acc : Z) :
  fold_left (fun a k => 10 * a + k) (udigits d) acc
  = acc * 10 ^ Z.of_N (DecimalPos.Unsigned.usize d)
    + Z.of_N (DecimalPos.Unsigned.of_lu (Decimal.rev d)).
Proof.
  revert acc.
  induction d; intro acc; [cbn; lia | ..];
    cbn [udigits fold_left DecimalPos.Unsigned.usize];
    rewrite IHd;
    set (L := DecimalPos.Unsigned.of_lu (Decimal.rev d));
    unfold Decimal.rev; cbn [Decimal.revapp];
    rewrite (DecimalPos.Unsigned.of_lu_revapp d);
    fold (Decimal.rev d); fold L;
    cbn [DecimalPos.Unsigned.of_lu];
    rewrite N2Z.inj_add, N2Z.inj_mul, N2Z.inj_pow, N2Z.inj_succ,
      Z.pow_succ_r by apply N2Z.is_nonneg;
    cbn [N.add N.mul Z.of_N]; clearbody L; ring.
Qed.

Lemma digits_value_uint (d : Decimal.uint) :
  digits_value (udigits d) = Z.of_uint d.
Proof.
  unfold digits_value, Z.of_uint. rewrite fold_digits_uint.
  rewrite DecimalPos.Unsigned.of_uint_alt. lia.
Qed.

Lemma Qred_inject_Z (v : Z) : Qred (inject_Z v) = inject_Z v.
Proof.
  unfold Qred, inject_Z.
  pose proof (Z.ggcd_gcd v 1) as Hg.
  pose proof (Z.ggcd_correct_divisors v 1) as Hd.
  destruct (Z.ggcd v 1) as [g [aa bb]]. cbn [fst] in Hg.
  rewrite Z.gcd_1_r in Hg. subst g. destruct Hd as [Ha Hb].
  rewrite Z.mul_1_l in Ha, Hb. subst aa bb. reflexivity.
Qed.

Lemma digit_char_facts (c : ascii) :
  isdigit c = true ->
  isspace c = false /\ Ascii.eqb c "-" = false /\ Ascii.eqb c "+" = false.
Proof.
  destruct c as [[] [] [] [] [] [] [] []]; intro H;
    try discriminate H; repeat split.
Qed.

Lemma string_of_uint_head (d : Decimal.uint) :
  d <> Decimal.Nil ->
  exists c s, NilEmpty.string_of_uint d = String c s /\ isdigit c = true.
Proof.
  destruct d; intro H; [congruence | ..]; cbn [NilEmpty.string_of_uint];
    eexists; eexists; split; reflexivity.
Qed.

(** The text of a whole number: an optional minus sign and the digits of
    its absolute value. *)
Lemma to_string_shape (z : Z) :
  exists (neg : bool) (d : Decimal.uint),
    d <> Decimal.Nil /\
    to_string z = ((if neg then "-" else "") ++ NilEmpty.string_of_uint d)%string /\
    signed neg (Z.of_uint d) = z.
Proof.
  pose proof (DecimalZ.of_to z) as Hz. unfold to_string.
  destruct z as [| p | p]; cbn [Z.to_int] in *.
  - exists false, Decimal.zero. repeat split. discriminate.
  - exists false, (Pos.to_uint p).
    pose proof (DecimalPos.Unsigned.to_uint_nonnil p) as Hn.
    split; [exact Hn |]. split; [| exact Hz].
    cbn [NilZero.string_of_int append]. unfold NilZero.string_of_uint.
    destruct (Pos.to_uint p); [congruence | reflexivity ..].
  - exists true, (Pos.to_uint p).
    pose proof (DecimalPos.Unsigned.to_uint_nonnil p) as Hn.
    split; [exact Hn |]. split; [| exact Hz].
    cbn [NilZero.string_of_int append]. unfold NilZero.string_of_uint.
    destruct (Pos.to_uint p); [congruence | reflexivity ..].
Qed.

Lemma ends_number_digits (rest : string) :
  ends_number rest = true -> read_digits rest = ([], rest).
Proof.
  destruct rest as [| c rest]; [reflexivity |].
  cbn [ends_number read_digits]. intro H. apply negb_true_iff in H.
  destruct (isdigit c); [discriminate H | reflexivity].
Qed.

(** Sign and digits of the text of a whole number, as the readers see them. *)
Lemma scan_to_string (z : Z) (rest : string) :
  read_digits rest = ([], rest) ->
  exists (neg : bool) (ds : list Z) (s1 : string),
    ds <> [] /\ signed neg (digits_value ds) = z /\
    read_sign (skipws (to_string z ++ rest)) = (neg, s1) /\
    read_digits s1 = (ds, rest).
Proof.
  intro Hrest.
  destruct (to_string_shape z) as [neg [d [Hd [Hs Hv]]]].
  destruct (string_of_uint_head d Hd) as [c [s [Hc Hdig]]].
  destruct (digit_char_facts c Hdig) as [Hsp [Hm Hp]].
  exists neg, (udigits d), (NilEmpty.string_of_uint d ++ rest)%string.
  split; [destruct d; [congruence | discriminate ..] |].
  split; [rewrite digits_value_uint; exact Hv |].
  split.
  - rewrite Hs. destruct neg; cbn [append].
    + cbn [skipws]. change (isspace "-") with false. cbv iota.
      cbn [read_sign]. rewrite Ascii.eqb_refl. reflexivity.
    + rewrite Hc. cbn [append skipws]. rewrite Hsp.
      cbn [read_sign]. rewrite Hm, Hp. reflexivity.
  - rewrite read_digits_uint, Hrest.
    cbn [fst snd]. rewrite app_nil_r. reflexivity.
Qed.

Lemma extract_double_int (z : Z) (rest : string) :
  ends_number rest = true ->
  extract_double (to_string z ++ rest) = Some (inject_Z z, rest).
Proof.
  intro Hrest.
  destruct (scan_to_string z rest (ends_number_digits rest Hrest))
    as [neg [ds [s1 [Hne [Hv [Hsign Hdig]]]]]].
  unfold extract_double. rewrite Hsign, Hdig.
  assert (Hfrac :
    match rest with
    | String c s' => if Ascii.eqb c "." then read_digits s' else ([], rest)
    | EmptyString => ([], rest)
    end = (@nil Z, rest)).
  { destruct rest as [| c r]; [reflexivity |].
    cbn [ends_number] in Hrest. apply negb_true_iff in Hrest.
    destruct (Ascii.eqb c "."); [| reflexivity].
    rewrite !orb_true_r in Hrest. cbn in Hrest.
    rewrite ?orb_true_r in Hrest. discriminate Hrest. }
  rewrite Hfrac. rewrite app_nil_r.
  destruct ds as [| k ds]; [congruence |].
  assert (Hexp : read_exponent rest = Some (0, rest)).
  { destruct rest as [| c r]; [reflexivity |].
    cbn [ends_number] in Hrest. apply negb_true_iff in Hrest.
    cbn [read_exponent].
    destruct (Ascii.eqb c "e" || Ascii.eqb c "E") eqn:E; [| reflexivity].
    apply orb_true_iff in E.
    destruct E as [E | E]; rewrite E in Hrest;
      rewrite ?orb_true_r in Hrest; discriminate Hrest. }
  rewrite Hexp, Hv. cbn [List.length Z.of_nat Z.sub Z.opp Qpower].
  rewrite <- (Qred_inject_Z z) at 2. f_equal. f_equal.
  apply Qred_complete. unfold inject_Z, Qeq. cbn. lia.
Qed.

(** The numeric reader reads back a whole number written by
    [to_string]: when the text goes on with nothing, or with a character
    that is no digit, point or exponent mark, the value read is the number
    and the rest is left unread; leading white space does not matter. *)
Theorem extract_double_to_string (z : Z) (sp : ascii) (rest : string) :
  isspace sp = true -> ends_number rest = true ->
  extract_double (to_string z ++ rest) = Some (inject_Z z, rest) /\
  extract_double (String sp (to_string z ++ rest)) = Some (inject_Z z, rest).
Proof.
  intros Hsp Hrest. split; [apply extract_double_int; exact Hrest |].
  rewrite <- (extract_double_int z rest Hrest).
  unfold extract_double. cbn [skipws]. rewrite Hsp. reflexivity.
Qed.

Lemma extract_double_to_string_witness :
  extract_double (to_string (-42) ++ " 7") = Some (inject_Z (-42), " 7"%string).
Proof. apply (extract_double_to_string (-42) " " " 7" eq_refl eq_refl). Defined.

Lemma append_nil_r (s : string) : (s ++ "")%string = s.
Proof. induction s as [| c s IH]; cbn [append]; [| rewrite IH]; reflexivity. Qed.

Lemma all_chars_app (p : ascii -> bool) (x y : string) :
  all_chars p (x ++ y) = all_chars p x && all_chars p y.
Proof.
  induction x as [| c x IH]; cbn [append all_chars]; [reflexivity |].
  rewrite IH. apply andb_assoc.
Qed.






Section IntReport.
Context {libc : Libc} {engine : Engine}.


End IntReport.


(** ** The arguments of [main] *)

Lemma substring_all (s : string) : substring 0 (String.length s) s = s.
Proof.
  induction s as [| c s IH]; cbn [String.length substring];
    [| rewrite IH]; reflexivity.
Qed.

Lemma atoi_int (z : Z) (rest : string) :
  INT_MIN <= z <= INT_MAX -> read_digits rest = ([], rest) ->
  atoi (to_string z ++ rest) = z.
Proof.
  intros Hz Hrest.
  destruct (scan_to_string z rest Hrest)
    as [neg [ds [s1 [_ [Hv [Hsign Hdig]]]]]].
  unfold atoi. rewrite Hsign, Hdig, Hv. apply wrap_int_id. exact Hz.
Qed.

(** [atoi] reads back a number of the [int] range written by
    [to_string], whatever follows it that does not begin with a digit, and
    whatever white space precedes it. *)
Theorem atoi_to_string (z : Z) (sp : ascii) (rest : string) :
  INT_MIN <= z <= INT_MAX -> isspace sp = true ->
  read_digits rest = ([], rest) ->
  atoi (to_string z ++ rest) = z /\
  atoi (String sp (to_string z ++ rest)) = z.
Proof.
  intros Hz Hsp Hrest. split; [apply atoi_int; assumption |].
  rewrite <- (atoi_int z rest Hz Hrest) at 2.
  unfold atoi. cbn [skipws]. rewrite Hsp. reflexivity.
Qed.

Lemma atoi_to_string_witness : atoi (to_string (-120) ++ "abc") = -120.
Proof.
  apply (atoi_to_string (-120) " " "abc");
    [unfold INT_MIN, INT_MAX; lia | reflexivity | reflexivity].
Defined.

Example atoi_forms :
  atoi "" = 0 /\ atoi "abc" = 0 /\ atoi "  +17x" = 17 /\ atoi "-" = 0.
Proof. repeat split. Qed.

Section MainArguments.
Variable atof : string -> double.

Lemma parse_args_snoc (argv : list string) (a : string) :
  argv <> [] ->
  parse_args atof (argv ++ [a]) = parse_arg atof (parse_args atof argv) a.
Proof.
  intro H. unfold parse_args. destruct argv as [| p argv]; [congruence |].
  cbn [app tl]. apply fold_left_app.
Qed.

Lemma substr_from_app (p s : string) :
  substr_from (p ++ s) (String.length p) = s.
Proof.
  unfold substr_from. induction p as [| c p IH].
  - cbn [append String.length]. rewrite Nat.sub_0_r. apply substring_all.
  - cbn [append String.length Nat.sub substring]. exact IH.
Qed.

Lemma prefix_app (p s : string) : prefix p (p ++ s) = true.
Proof.
  apply prefix_correct. induction p as [| c p IH];
    cbn [append String.length substring]; [| rewrite IH]; [| reflexivity].
  destruct s; reflexivity.
Qed.

Ltac prefix_false :=
  match goal with
  | |- prefix ?p ?a = false =>
      let E := fresh "E" in
      destruct (prefix p a) eqn:E; [| reflexivity];
      apply prefix_correct in E; cbn in E; discriminate E
  end.

Lemma option_n (cfg : Settings) (s : string) :
  parse_arg atof cfg ("--n=" ++ s)
  = mkSettings (atoi s) (massKg cfg) (maxDaysCap cfg).
Proof.
  unfold parse_arg. rewrite prefix_app.
  change (substr_from ("--n=" ++ s) 4)
    with (substr_from ("--n=" ++ s) (String.length "--n=")).
  rewrite substr_from_app. reflexivity.
Qed.

Lemma option_mass (cfg : Settings) (s : string) :
  parse_arg atof cfg ("--mass=" ++ s)
  = mkSettings (numSim cfg) (atof s) (maxDaysCap cfg).
Proof.
  unfold parse_arg.
  assert (H : prefix "--n=" ("--mass=" ++ s) = false) by prefix_false.
  rewrite H, prefix_app.
  change (substr_from ("--mass=" ++ s) 7)
    with (substr_from ("--mass=" ++ s) (String.length "--mass=")).
  rewrite substr_from_app. reflexivity.
Qed.

Lemma option_capDays (cfg : Settings) (s : string) :
  parse_arg atof cfg ("--capDays=" ++ s)
  = mkSettings (numSim cfg) (massKg cfg) (atof s).
Proof.
  unfold parse_arg.
  assert (H1 : prefix "--n=" ("--capDays=" ++ s) = false) by prefix_false.
  assert (H2 : prefix "--mass=" ("--capDays=" ++ s) = false) by prefix_false.
  rewrite H1, H2, prefix_app.
  change (substr_from ("--capDays=" ++ s) 10)
    with (substr_from ("--capDays=" ++ s) (String.length "--capDays=")).
  rewrite substr_from_app. reflexivity.
Qed.

(** X13: in the arguments of [main] a later option overrides an earlier one
    and touches no other setting: after any arguments, [--n=s] sets the
    trial count to [atoi s], [--mass=s] the mass and [--capDays=s] the cap
    to [atof s], and an argument that begins with none of the three
    prefixes changes nothing. *)
Theorem parse_args_last_option (argv : list string) (s : string) :
  argv <> [] ->
  let before := parse_args atof argv in
  parse_args atof (argv ++ ["--n=" ++ s]%string)
    = mkSettings (atoi s) (massKg before) (maxDaysCap before) /\
  parse_args atof (argv ++ ["--mass=" ++ s]%string)
    = mkSettings (numSim before) (atof s) (maxDaysCap before) /\
  parse_args atof (argv ++ ["--capDays=" ++ s]%string)
    = mkSettings (numSim before) (massKg before) (atof s) /\
  (prefix "--n=" s = false -> prefix "--mass=" s = false ->
   prefix "--capDays=" s = false ->
   parse_args atof (argv ++ [s]) = before).
Proof.
  intros H before. subst before. rewrite !parse_args_snoc by exact H.
  rewrite option_n, option_mass, option_capDays.
  repeat split. intros H1 H2 H3. unfold parse_arg. rewrite H1, H2, H3.
  reflexivity.
Qed.

(** X14: the trial count given as [--n=] followed by a number of the [int]
    range, written in decimal, is that number. *)
Theorem option_n_round_trip (argv : list string) (z : Z) :
  argv <> [] -> INT_MIN <= z <= INT_MAX ->
  numSim (parse_args atof (argv ++ ["--n=" ++ to_string z]%string)) = z.
Proof.
  intros H Hz. rewrite parse_args_snoc by exact H. rewrite option_n.
  cbn [numSim]. rewrite <- (append_nil_r (to_string z)).
  apply atoi_int; [exact Hz | reflexivity].
Qed.

End MainArguments.

Lemma parse_args_last_option_witness :
  parse_args (fun _ => 0%Q) ["prog"; "--n=7"; "--mass=3"; "--n=12"]%string
  = mkSettings 12 0%Q 90%Q.
Proof.
  exact (proj1 (parse_args_last_option (fun _ => 0%Q)
                  ["prog"; "--n=7"; "--mass=3"]%string "12"
                  ltac:(discriminate))).
Defined.

Lemma option_n_round_trip_witness :
  numSim (parse_args (fun _ => 0%Q)
            (["prog"%string] ++ [("--n=" ++ to_string 100)%string]))
  = 100.
Proof.
  apply (option_n_round_trip (fun _ => 0%Q) ["prog"%string] 100);
    [discriminate | unfold INT_MIN, INT_MAX; lia].
Defined.

(** ** The whole computation *)




Section WholeComputation.
Context {libc : Libc} {engine : Engine}.

Lemma loop_body_accepts n rank m c (res : Z -> Result) i lb (w : World) :
  outcome_by_index n m c res -> 0 <= i < n ->
  fst (loop_body rank m c i lb w) = accept lb (res i).
Proof.
  intros Hres Hi. rewrite loop_body_eq. cbv zeta.
  rewrite (Hres i _ Hi).
  destruct (ok (res i)) eqn:Hok; cbn [fst]; [reflexivity |].
  rewrite accept_invalid by exact Hok. reflexivity.
Qed.

(** Away from the upper end of [int], the local best of a loop that has
    finished is the fold of the outcomes of its indices. *)
Lemma worker_loop_folds n rank size m c (res : Z -> Result) :
  outcome_by_index n m c res ->
  0 < size -> n + size <= INT_MAX + 1 ->
  forall fuel i lb (w : World) lb' w',
    0 <= i ->
    worker_loop fuel n rank size m c i lb w = Finished lb' w' ->
    lb' = reduce lb (map res (stride_indices n i size)).
Proof.
  intros Hres Hs Hn. induction fuel as [| fuel IH]; intros i lb w lb' w' Hi E;
    destruct (Z.lt_ge_cases i n) as [Hlt | Hge];
    try (rewrite worker_loop_exit in E by exact Hge;
         injection E as <- _;
         rewrite (stride_indices_nil n i size Hs Hge); reflexivity).
  - rewrite worker_loop_out_of_fuel in E by exact Hlt. discriminate.
  - rewrite worker_loop_step in E by exact Hlt.
    unfold int_add in E.
    rewrite wrap_int_id in E by (unfold INT_MAX, INT_MIN in *; lia).
    apply IH in E; [| lia].
    rewrite (loop_body_accepts n rank m c res i lb w Hres) in E by lia.
    rewrite (stride_indices_step n i size Hs Hlt). exact E.
Qed.

End WholeComputation.


Section WorkersChangeNothing.
Context {libc : Libc} {engine : Engine}.


End WorkersChangeNothing.

Lemma sample_outcome_by_index :
  outcome_by_index (libc := sample_libc) (engine := sample_engine)
    4 200%Q 90%Q sample_result.
Proof.
  intros i w Hi.
  assert (Hc : i = 0 \/ i = 1 \/ i = 2 \/ i = 3) by lia.
  destruct Hc as [-> | [-> | [-> | ->]]]; vm_compute; reflexivity.
Qed.




(** ** [trim] *)

Lemma length_append (x y : string) :
  String.length (x ++ y) = (String.length x + String.length y)%nat.
Proof.
  induction x as [| c x IH]; cbn [append String.length]; [| rewrite IH];
    reflexivity.
Qed.

Lemma append_split (x y u v : string) :
  (x ++ y = u ++ v)%string -> (String.length x <= String.length u)%nat ->
  exists w, u = (x ++ w)%string /\ y = (w ++ v)%string.
Proof.
  revert u. induction x as [| c x IH]; intros u H Hl.
  - exists u. auto.
  - destruct u as [| d u]; [cbn in Hl; lia |].
    cbn [append] in H. injection H as -> H.
    destruct (IH u H) as [w [-> ->]]; [cbn in Hl; lia |].
    exists w. auto.
Qed.

Lemma substring_skip (pre t : string) (k : nat) :
  substring (String.length pre) k (pre ++ t) = substring 0 k t.
Proof.
  induction pre as [| c pre IH]; cbn [append String.length substring];
    [reflexivity | exact IH].
Qed.

Lemma substring_prefix (m post : string) :
  substring 0 (String.length m) (m ++ post) = m.
Proof.
  induction m as [| c m IH]; cbn [append String.length substring].
  - destruct post; reflexivity.
  - rewrite IH. reflexivity.
Qed.

Lemma find_first_spec (s : string) :
  match find_first_not_of s blanks with
  | None => all_chars is_blank s = true
  | Some a =>
      exists pre c rest,
        s = (pre ++ String c rest)%string /\ String.length pre = a /\
        all_chars is_blank pre = true /\ is_blank c = false
  end.
Proof.
  induction s as [| x s IH]; cbn [find_first_not_of all_chars]; [reflexivity |].
  fold (is_blank x). destruct (is_blank x) eqn:Hx.
  - destruct (find_first_not_of s blanks) as [a |]; cbn [option_map andb].
    + destruct IH as [pre [c [rest [-> [Hl [Hp Hc]]]]]].
      exists (String x pre), c, rest. cbn [append String.length all_chars].
      rewrite Hx, Hp, Hl. auto.
    + exact IH.
  - exists EmptyString, x, s. auto.
Qed.

Lemma find_last_spec (s : string) :
  match find_last_not_of s blanks with
  | None => all_chars is_blank s = true
  | Some b =>
      exists body d post,
        s = (body ++ String d post)%string /\ String.length body = b /\
        is_blank d = false /\ all_chars is_blank post = true
  end.
Proof.
  induction s as [| x s IH]; cbn [find_last_not_of all_chars]; [reflexivity |].
  destruct (find_last_not_of s blanks) as [k |].
  - destruct IH as [body [d [post [-> [Hl [Hd Hp]]]]]].
    exists (String x body), d, post. cbn [append String.length].
    rewrite Hl. auto.
  - fold (is_blank x). destruct (is_blank x) eqn:Hx.
    + rewrite IH. reflexivity.
    + exists EmptyString, x, s. auto.
Qed.

Lemma last_char_app (body : string) (d : ascii) :
  last_char (body ++ String d EmptyString) = Some d.
Proof.
  induction body as [| c body IH]; cbn [append last_char]; [reflexivity |].
  rewrite IH. reflexivity.
Qed.

Lemma find_last_of_last (t : string) (d : ascii) :
  last_char t = Some d -> is_blank d = false ->
  find_last_not_of t blanks = Some (String.length t - 1)%nat.
Proof.
  induction t as [| x t IH]; [discriminate |].
  cbn [last_char find_last_not_of String.length]. intros Hl Hd.
  destruct (last_char t) as [e |] eqn:E.
  - rewrite (IH Hl Hd). destruct t; [discriminate E |].
    cbn [String.length]. f_equal. lia.
  - destruct t; [| cbn in E; destruct (last_char t); discriminate E].
    cbn [find_last_not_of]. injection Hl as ->.
    fold (is_blank d). rewrite Hd. reflexivity.
Qed.

(** The parts of a text around what [trim] keeps. *)
Lemma trim_parts (s : string) :
  exists pre post,
    s = (pre ++ trim s ++ post)%string /\
    all_chars is_blank pre = true /\ all_chars is_blank post = true /\
    trimmed (trim s).
Proof.
  unfold trim.
  pose proof (find_first_spec s) as Hf. pose proof (find_last_spec s) as Hl.
  destruct (find_first_not_of s blanks) as [a |].
  - destruct Hf as [pre [c [rest [Es [Ha [Hpre Hc]]]]]].
    destruct (find_last_not_of s blanks) as [b |].
    + destruct Hl as [body [d [post [Es' [Hb [Hd Hpost]]]]]].
      assert (Hle : (String.length pre <= String.length body)%nat).
      { destruct (Nat.le_gt_cases (String.length pre) (String.length body))
          as [H | H]; [exact H | exfalso].
        rewrite Es in Es'. symmetry in Es'.
        destruct (append_split body (String d post) pre (String c rest) Es')
          as [w [Ew Ew']]; [lia |].
        destruct w as [| e w].
        - rewrite Ew, length_append in H. cbn in H. lia.
        - cbn [append] in Ew'. injection Ew' as <- _.
          rewrite Ew, all_chars_app in Hpre. cbn [all_chars] in Hpre.
          rewrite Hd in Hpre. rewrite andb_false_r in Hpre. discriminate. }
      assert (Es2 : (pre ++ String c rest = body ++ String d post)%string)
        by congruence.
      destruct (append_split pre (String c rest) body (String d post) Es2 Hle)
        as [w [Ew Ew']].
      exists pre, post.
      assert (Et : substr s a (b - a + 1) = (w ++ String d EmptyString)%string).
      { unfold substr. rewrite Es', Ew, <- Ha, append_assoc_r.
        rewrite substring_skip.
        replace (b - String.length pre + 1)%nat
          with (String.length (w ++ String d EmptyString)).
        - replace (w ++ String d post)%string
            with ((w ++ String d EmptyString) ++ post)%string
            by (rewrite append_assoc_r; reflexivity).
          apply substring_prefix.
        - rewrite length_append. cbn [String.length].
          rewrite <- Hb, Ew, length_append. lia. }
      rewrite Et. split; [| split; [exact Hpre | split; [exact Hpost |]]].
      * rewrite Es', Ew, !append_assoc_r. reflexivity.
      * split.
        -- intros e He. destruct w as [| x w].
           ++ cbn in He. injection He as <-. exact Hd.
           ++ cbn [append] in Ew'. injection Ew' as <- _.
              cbn in He. injection He as <-. exact Hc.
        -- intros e He. rewrite last_char_app in He. injection He as <-.
           exact Hd.
    + (* a character that is no blank exists, so a last one does *)
      exfalso. rewrite Es, all_chars_app in Hl. cbn [all_chars] in Hl.
      rewrite Hc, andb_false_r in Hl. discriminate.
  - exists s, EmptyString. rewrite append_nil_r.
    split; [reflexivity |]. split; [exact Hf |]. split; [reflexivity |].
    split; intros ? H; discriminate H.
Qed.

Lemma trim_of_trimmed (t : string) : trimmed t -> trim t = t.
Proof.
  intros [Hf Hl]. destruct t as [| c t]; [reflexivity |].
  pose proof (Hf c eq_refl) as Hc.
  destruct (last_char (String c t)) as [d |] eqn:E;
    [| cbn in E; destruct (last_char t); discriminate E].
  unfold trim. rewrite (find_last_of_last _ d E (Hl d eq_refl)).
  cbn [find_first_not_of]. fold (is_blank c). rewrite Hc.
  unfold substr. cbn [String.length].
  replace (S (String.length t) - 1 - 0 + 1)%nat with (String.length (String c t))
    by (cbn [String.length]; lia).
  apply substring_all.
Qed.

(** X16: [trim] removes blanks (space, tab, carriage return, newline) at
    both ends and nothing else: the text is a run of blanks, then what
    [trim] returns, then a run of blanks, and what [trim] returns neither
    begins nor ends with a blank; a text of blanks only gives the empty
    text. *)
Theorem trim_spec (s : string) :
  (exists pre post,
     s = (pre ++ trim s ++ post)%string /\
     all_chars is_blank pre = true /\ all_chars is_blank post = true /\
     trimmed (trim s)) /\
  (all_chars is_blank s = true -> trim s = EmptyString).
Proof.
  split; [apply trim_parts |].
  intro H. unfold trim. pose proof (find_first_spec s) as Hf.
  destruct (find_first_not_of s blanks) as [a |]; [| reflexivity].
  destruct Hf as [pre [c [rest [-> [_ [_ Hc]]]]]].
  rewrite all_chars_app in H. cbn [all_chars] in H.
  rewrite Hc, andb_false_r in H. discriminate.
Qed.

(** X17: trimming twice is trimming once, and a text that neither begins
    nor ends with a blank is left as it is. *)
Theorem trim_idempotent (s : string) :
  trim (trim s) = trim s /\ (trimmed s -> trim s = s).
Proof.
  split; [| apply trim_of_trimmed].
  destruct (trim_parts s) as [_ [_ [_ [_ [_ H]]]]].
  apply trim_of_trimmed. exact H.
Qed.

Lemma trim_spec_witness :
  trim (String "009" " a b  ") = "a b"%string /\
  trim "   " = EmptyString.
Proof.
  split; [reflexivity |].
  apply (proj2 (trim_spec "   ")). reflexivity.
Defined.

Lemma trim_idempotent_witness : trim "a b" = "a b"%string.
Proof.
  apply (proj2 (trim_idempotent "a b")).
  split; intros c H; injection H as <-; reflexivity.
Defined.

(** ** A worker alone, and who prints the final line *)

Lemma stride_indices_all (n : Z) : stride_indices n 0 1 = Zseq n.
Proof.
  unfold stride_indices, stride_count, Zseq.
  replace ((n - 0 + 1 - 1) / 1) with n by (rewrite Z.div_1_r; lia).
  apply map_ext. intro k. lia.
Qed.

Section WorkerAlone.
Context {libc : Libc} {engine : Engine}.

(** X18: when every trial has one outcome whatever the state of the files,
    the local best of a worker that has returned is the fold of the
    comparator over the outcomes of its strided indices, in increasing
    order; for a single worker these are all the trials [0 .. n-1]. *)
Theorem worker_best_is_fold_of_outcomes (n rank size : Z) (m c : double)
    (res : Z -> Result) (fuel : nat) (w : World) (lb : Result) (w' : World) :
  outcome_by_index n m c res ->
  0 <= rank < size -> n + size <= INT_MAX + 1 ->
  worker fuel n rank size m c w = Finished lb w' ->
  lb = reduce Result_zero (map res (stride_indices n rank size)) /\
  (size = 1 -> lb = reduce Result_zero (map res (Zseq n))).
Proof.
  intros Hres Hr Hb E. unfold worker in E.
  pose proof (worker_loop_folds n rank size m c res Hres ltac:(lia) Hb
                fuel rank Result_zero w lb w' ltac:(lia) E) as H.
  split; [exact H |].
  intros ->. assert (rank = 0) by lia. subst rank.
  rewrite <- stride_indices_all. exact H.
Qed.

(** X19: only rank 0 prints a final line, once and last: when
    [runMonteCarloDecay] returns on rank 0 its output is the result lines
    of its own trials followed by one final line, the report of the fold of
    its local best with the first [size - 1] records received; on any other
    rank the output is the result lines of its own trials and nothing else,
    and what is sent is the local best. *)
Theorem only_rank_0_reports (fuel : nat) (n rank size : Z) (m c : double)
    (inbox : list Result) (w : World) (d : Done) :
  runMonteCarloDecay fuel n rank size m c inbox w = Some d ->
  let lb := best_of (worker fuel n rank size m c w) in
  exists evs,
    Forall (fun e => exists r, e = EvRun rank r) evs /\
    match d with
    | Reported w' =>
        rank = 0 /\
        w_out w' = w_out w ++ evs
                   ++ [report (reduce lb (firstn (Z.to_nat (size - 1)) inbox))]
    | Sent msg w' => rank <> 0 /\ msg = lb /\ w_out w' = w_out w ++ evs
    end.
Proof.
  unfold runMonteCarloDecay. intro H. cbv zeta.
  unfold worker in *.
  destruct (worker_loop_inv n rank size m c fuel rank Result_zero w)
    as [evs [_ [Ho [_ [_ [Fe _]]]]]].
  destruct (worker_loop fuel n rank size m c rank Result_zero w)
    as [lb w1 | ? ? ?]; [| discriminate H].
  cbn [world_of best_of] in *.
  exists evs. split.
  - apply Forall_forall. intros e He.
    destruct (proj1 (Forall_forall _ _) Fe e He) as [r [-> _]]. eauto.
  - destruct (Z.eqb_spec rank 0) as [-> | Hne]; injection H as <-.
    + split; [reflexivity |]. cbn [w_out]. rewrite Ho, app_assoc. reflexivity.
    + auto.
Qed.

End WorkerAlone.

Lemma worker_best_is_fold_of_outcomes_witness :
  best_of (worker 10 4 0 1 200%Q 90%Q world0)
  = reduce Result_zero (map sample_result (Zseq 4)).
Proof.
  destruct (worker_loop_finishes (libc := sample_libc) (engine := sample_engine)
              4 0 1 200%Q 90%Q eq_refl ltac:(unfold INT_MAX; lia)
              10%nat 0 Result_zero world0 ltac:(unfold INT_MIN; lia)
              ltac:(vm_compute; lia)) as [lb' [w' [E _]]].
  unfold worker. rewrite E. cbn [best_of].
  apply (proj2 (worker_best_is_fold_of_outcomes
                  (libc := sample_libc) (engine := sample_engine)
                  4 0 1 200%Q 90%Q sample_result 10 world0 lb' w'
                  sample_outcome_by_index ltac:(lia) ltac:(unfold INT_MAX; lia) E)).
  reflexivity.
Defined.

Lemma rank_0_returns :
  exists w',
    @runMonteCarloDecay sample_libc (const_engine None)
       10 5 0 3 200%Q 90%Q [Result_zero; Result_zero] world0
      = Some (Reported w').
Proof.
  destruct (@worker_loop_finishes sample_libc (const_engine None)
              5 0 3 200%Q 90%Q eq_refl ltac:(unfold INT_MAX; lia)
              10%nat 0 Result_zero world0 ltac:(unfold INT_MIN; lia)
              ltac:(vm_compute; lia))
    as [lb [w1 [E _]]].
  eexists. unfold runMonteCarloDecay, worker. rewrite E. reflexivity.
Qed.

Lemma only_rank_0_reports_witness :
  exists w' evs,
    @runMonteCarloDecay sample_libc (const_engine None)
       10 5 0 3 200%Q 90%Q [Result_zero; Result_zero] world0
      = Some (Reported w') /\
    w_out w' = w_out world0 ++ evs
       ++ [report (reduce
                     (best_of (@worker sample_libc (const_engine None)
                                 10 5 0 3 200%Q 90%Q world0))
                     (firstn (Z.to_nat (3 - 1)) [Result_zero; Result_zero]))].
Proof.
  destruct rank_0_returns as [w' E].
  exists w'.
  destruct (@only_rank_0_reports sample_libc (const_engine None)
              10 5 0 3 200%Q 90%Q [Result_zero; Result_zero] world0
              (Reported w') E) as [evs [_ [_ H]]].
  exists evs. split; [exact E | exact H].
Defined.

(** ** Records and ranks that contribute nothing *)

(** X20: a record that is not ok is neutral wherever it arrives: the fold
    of the records received gives the same Global Best with it and without
    it. *)
Theorem invalid_record_is_neutral (g r : Result) (l1 l2 : list Result) :
  ok r = false -> reduce g (l1 ++ r :: l2) = reduce g (l1 ++ l2).
Proof.
  intro H. unfold reduce. rewrite !fold_left_app. cbn [fold_left].
  rewrite (accept_invalid _ r H). reflexivity.
Qed.

Lemma invalid_record_is_neutral_witness :
  reduce far_c ([far_b] ++ Result_zero :: [far_a]) = reduce far_c ([far_b] ++ [far_a]).
Proof. apply (invalid_record_is_neutral far_c Result_zero [far_b] [far_a] eq_refl). Defined.

Section NoTrials.
Context {libc : Libc} {engine : Engine}.

(** X21: a rank that has no trial ([numSimulations <= rank], as when there
    are more workers than trials, or no trial at all) runs nothing and
    prints no result line: a rank other than 0 sends the invalid initial
    record at once, and rank 0 prints the report of the fold of that record
    with the records it receives. *)
Theorem rank_without_trials (fuel : nat) (n rank size : Z) (m c : double)
    (inbox : list Result) (w : World) :
  n <= rank ->
  worker fuel n rank size m c w = Finished Result_zero w /\
  (rank <> 0 ->
   runMonteCarloDecay fuel n rank size m c inbox w = Some (Sent Result_zero w)) /\
  (rank = 0 ->
   exists w',
     runMonteCarloDecay fuel n rank size m c inbox w = Some (Reported w') /\
     w_runs w' = w_runs w /\ w_err w' = w_err w /\
     w_out w' = w_out w
                ++ [report (reduce Result_zero
                              (firstn (Z.to_nat (size - 1)) inbox))]).
Proof.
  intro H.
  assert (E : worker fuel n rank size m c w = Finished Result_zero w)
    by (apply worker_loop_exit; exact H).
  split; [exact E |]. unfold runMonteCarloDecay. rewrite E. split.
  - intro Hne. destruct (Z.eqb_spec rank 0); [contradiction | reflexivity].
  - intros ->. cbn [Z.eqb]. eexists. split; [reflexivity |]. auto.
Qed.

End NoTrials.

Lemma rank_without_trials_witness :
  runMonteCarloDecay 0 3 5 8 200%Q 90%Q [] world0 = Some (Sent Result_zero world0).
Proof.
  apply (proj1 (proj2 (rank_without_trials 0 3 5 8 200%Q 90%Q [] world0
                         ltac:(lia)))).
  discriminate.
Defined.

(** ** The shares of the ranks *)


